(** * bytepower_room: a shallow embedding of the shard mapper, the storage
    layer, the hash-tag event pipeline and the command dispatcher.

  Sources embedded here:
    - base/db.go              (module [Db])
    - the storage models file (module [Storage])
    - base/hash_tag_event.go  (module [Event])
    - service/service_server.go (module [Server])

  Conventions.  A Go [int] is a 64-bit two's complement integer, carried
  as a [Z] with the wrap-around written out ([Go.int64]); a [uint32] is a
  [Z] reduced modulo [2^32].  A Go function that can fail returns an
  [outcome]: a value, a Go [error], or a run-time panic.  Go pointers to
  shared objects are locations into an explicit store. *)

From Stdlib Require Import ZArith Lia Ascii String List.
From stdpp Require Import gmap strings list fin_maps pretty.

Local Open Scope Z_scope.

(** ** Go values shared by all packages *)
Module Go.

(** Conversion to [uint32]: keep the low 32 bits. *)
Definition uint32 (x : Z) : Z := x mod 2 ^ 32.

(** Signed 64-bit wrap-around, the result of Go [int] / [int64] arithmetic. *)
Definition int64 (x : Z) : Z := (x + 2 ^ 63) mod 2 ^ 64 - 2 ^ 63.

Definition minInt64 : Z := - 2 ^ 63.
Definition maxInt64 : Z := 2 ^ 63 - 1.

Definition is_int64 (x : Z) : Prop := minInt64 <= x <= maxInt64.

(** The errors the embedded code creates or tests for.  [errors.Is] and
    [errors.As] of the source become pattern matching on this type. *)
Inductive error : Type :=
| ErrNoDBClient                      (* errors.New("no db client found") *)
| errNoRowsUpdated                   (* "no rows is updated" *)
| pgErrNoRows                        (* pg.ErrNoRows *)
| pgErrTxDone                        (* pg.ErrTxDone *)
| pgIntegrityViolation               (* a pg.Error with IntegrityViolation() *)
| pgCardinalityViolation             (* a pg.Error, SQLSTATE 21000 *)
| ErrEventHashKeyEmpty
| ErrEventAccessModeEmpty
| ErrEventAccessTimeEmpty
| ErrEventNoKeys
| errDrainEventTimeout
| errBufferFull (limit : Z) (hash_tag : string)   (* "event service buffer is full ..." *)
| errTransport (msg : string)        (* the error of http.Client.Post *)
| errResponse (http_code : Z) (body : string)
| errResponseRead (http_code : Z)    (* "response error, ..., read_body_err=..." *)
| errOther (msg : string).

Global Instance error_eq_dec : EqDecision error.
Proof. solve_decision. Defined.

(** What a call of a Go function produces. *)
Inductive outcome (A : Type) : Type :=
| Ok (a : A)
| Err (e : error)
| Panic (msg : string).
Global Arguments Ok {A} a.
Global Arguments Err {A} e.
Global Arguments Panic {A} msg.

(** Sequencing: an error or a panic of the first call ends the function. *)
Global Instance outcome_bind : MBind outcome := λ A B k o,
  match o with
  | Ok a => k a
  | Err e => Err e
  | Panic m => Panic m
  end.

(** [time.Time] as the instant it denotes, in nanoseconds since the Unix
    epoch; [time.Duration] is an [int64] count of nanoseconds. *)
Definition Time : Type := Z.

(** The zero [time.Time]: January 1, year 1, 00:00:00 UTC. *)
Definition zeroTime : Time := -62135596800 * 10 ^ 9.

Definition Time_IsZero (t : Time) : bool := t =? zeroTime.

(** [t.After(u)] *)
Definition After (t u : Time) : bool := u <? t.



End Go.

(** ** hash/crc32 of the Go standard library, IEEE polynomial

  [crc32.ChecksumIEEE] is computed by several interchangeable back ends;
  this is the package's table-driven reference one ([simpleMakeTable],
  [simpleUpdate]). *)
Module Crc32.

Definition IEEE : Z := 0xedb88320.

(** One round of the inner loop of [simplePopulateTable]. *)
Definition table_round (crc : Z) : Z :=
  if Z.land crc 1 =? 1 then Z.lxor (Z.shiftr crc 1) IEEE else Z.shiftr crc 1.

(** [t[i]] of [simplePopulateTable]: eight rounds from [uint32(i)]. *)
Definition table_entry (i : Z) : Z := Nat.iter 8 table_round i.

(** The loop body of [simpleUpdate]: [crc = tab[byte(crc)^v] ^ (crc >> 8)]. *)
Definition update_byte (crc v : Z) : Z :=
  Z.lxor (table_entry (Z.lxor (Z.land crc 0xff) v)) (Z.shiftr crc 8).

(** [^crc] on a [uint32]. *)
Definition not32 (crc : Z) : Z := Z.lxor crc 0xffffffff.

Definition byte_of_ascii (a : ascii) : Z := Z.of_N (N_of_ascii a).

(** [[]byte(s)]: a Go string is its bytes. *)
Definition bytes_of_string (s : string) : list Z :=
  byte_of_ascii <$> list_ascii_of_string s.

Definition simpleUpdate (crc : Z) (p : list Z) : Z :=
  not32 (fold_left update_byte p (not32 crc)).

Definition ChecksumIEEE (data : list Z) : Z := simpleUpdate 0 data.

End Crc32.

(** ** base/db.go: the shard mapper *)
Module Db.
Import Go.

(** A [*pg.DB] connection pool, identified by a handle; [nil] is [None]. *)
Definition pgDB : Type := nat.

Record dbClient : Type := {
  startIndex : Z;
  endIndex : Z;
  client : pgDB
}.

Record DBCluster : Type := {
  clients : list dbClient;
  shardingCount : Z
}.

(** [type Model interface { ShardingKey() string; GetTablePrefix() string }] *)
Class Model (M : Type) : Type := {
  ShardingKey : M -> string;
  GetTablePrefix : M -> string
}.

(** [fmt.Sprintf("%s_%d", prefix, index)] *)
Definition table_name (prefix : string) (index : Z) : string :=
  prefix +:+ "_" +:+ pretty index.

Fixpoint scanClients (cs : list dbClient) (index : Z) : option pgDB :=
  match cs with
  | [] => None
  | c :: rest =>
      if (startIndex c <=? index) && (index <=? endIndex c)
      then Some (client c)
      else scanClients rest index
  end.

Definition getClientByIndex (dbCluster : DBCluster) (index : Z) : option pgDB :=
  scanClients (clients dbCluster) index.

(** [int(crc32.ChecksumIEEE([]byte(shardingKey)) % uint32(shardingCount))];
    the remainder by zero is a run-time panic. *)
Definition getTableIndex (shardingKey : string) (shardingCount : Z) : outcome Z :=
  let d := uint32 shardingCount in
  if d =? 0 then Panic "integer divide by zero"
  else Ok (Crc32.ChecksumIEEE (Crc32.bytes_of_string shardingKey) mod d).

Definition GetShardingIndex (dbCluster : DBCluster) (shardingKey : string) : outcome Z :=
  getTableIndex shardingKey (shardingCount dbCluster).

Definition GetTableNameAndDBClientByModel `{Model M}
    (dbCluster : DBCluster) (model : M) : outcome (string * pgDB) :=
  tableIndex ← getTableIndex (ShardingKey model) (shardingCount dbCluster);
  match getClientByIndex dbCluster tableIndex with
  | None => Err ErrNoDBClient
  | Some client => Ok (table_name (GetTablePrefix model) tableIndex, client)
  end.

(** [DBCluster.Models]: the table of a prefix at an explicit index. *)
Definition Models (dbCluster : DBCluster) (tablePrefix : string) (tableIndex : Z)
    : outcome (string * pgDB) :=
  match getClientByIndex dbCluster tableIndex with
  | None => Err ErrNoDBClient
  | Some client => Ok (table_name tablePrefix tableIndex, client)
  end.

End Db.


(** ** The storage layer: value records, hash-tag documents, access and
    write records *)
Module Storage.
Import Go Db.

Record RedisValue : Type := {
  Type_ : string;
  Value_ : string;
  SyncedTs : Z;
  ExpireTs : Z
}.





Definition IsZero (v : RedisValue) : bool := bool_decide (Type_ v = "").

Record roomDataModelV2 : Type := {
  HashTag : string;
  Value : gmap string RedisValue;
  DeletedAt : Time;
  CreatedAt : Time;
  UpdatedAt : Time;
  Version : Z
}.

Global Instance roomDataModelV2_Model : Model roomDataModelV2 := {|
  ShardingKey := HashTag;
  GetTablePrefix := λ _, "room_data_v2"
|}.

(** *** The PostgreSQL servers behind the [*pg.DB] handles

    A server holds tables, a table holds rows under their primary key.  The
    statements the code sends are kept in a log.  Connections are assumed
    to work: a statement fails only for a reason the data decides. *)
Inductive stmt : Type :=
| SELECT (client : pgDB) (table pk : string)
| INSERT (client : pgDB) (table : string)
| UPDATE (client : pgDB) (table pk : string).

Record pg (R : Type) : Type := {
  tables : gmap (pgDB * string) (gmap string R);
  log : list stmt
}.
Global Arguments tables {R} _.
Global Arguments log {R} _.

Definition table {R} (s : pg R) (client : pgDB) (name : string) : gmap string R :=
  default ∅ (tables s !! (client, name)).

Definition set_table {R} (s : pg R) (client : pgDB) (name : string)
    (t : gmap string R) (st : stmt) : pg R :=
  {| tables := <[(client, name) := t]> (tables s); log := log s ++ [st] |}.

Definition logged {R} (s : pg R) (st : stmt) : pg R :=
  {| tables := tables s; log := log s ++ [st] |}.

(** What other connections commit while a call is between two of its
    statements: the tables change, the log of this connection does not. *)
Definition interfere {R} (env : gmap (pgDB * string) (gmap string R) ->
                                gmap (pgDB * string) (gmap string R))
    (s : pg R) : pg R :=
  {| tables := env (tables s); log := log s |}.

(** [query.WherePK().Select()]: the row, or [pg.ErrNoRows]. *)
Definition Select {R} (s : pg R) (client : pgDB) (name pk : string)
    : pg R * outcome R :=
  (logged s (SELECT client name pk),
   match table s client name !! pk with
   | Some row => Ok row
   | None => Err pgErrNoRows
   end).

(** [query.Insert()] of one row: a second row under the same primary key
    violates the key constraint. *)
Definition Insert {R} (s : pg R) (client : pgDB) (name pk : string) (row : R)
    : pg R * outcome unit :=
  match table s client name !! pk with
  | Some _ => (logged s (INSERT client name), Err pgIntegrityViolation)
  | None =>
      (set_table s client name (<[pk := row]> (table s client name))
         (INSERT client name), Ok ())
  end.

(** [query.Set(...).WherePK().Where(cond).Update()]: the number of rows
    affected. *)
Definition Update {R} (s : pg R) (client : pgDB) (name pk : string)
    (cond : R -> bool) (set : R -> R) : pg R * outcome Z :=
  match table s client name !! pk with
  | Some row =>
      if cond row
      then (set_table s client name (<[pk := set row]> (table s client name))
              (UPDATE client name pk), Ok 1)
      else (logged s (UPDATE client name pk), Ok 0)
  | None => (logged s (UPDATE client name pk), Ok 0)
  end.

Definition isRetryErrorForUpdateInTx (err : error) : bool :=
  match err with
  | errNoRowsUpdated => true
  | pgIntegrityViolation => true
  | pgErrTxDone => true
  | _ => false
  end.

Abbreviation store := (gmap (pgDB * string) (gmap string roomDataModelV2)).

(** [&roomDataModelV2{HashTag: hashTag}] *)
Definition newRoomDataModelV2 (hashTag : string) : roomDataModelV2 :=
  {| HashTag := hashTag; Value := ∅; DeletedAt := zeroTime;
     CreatedAt := zeroTime; UpdatedAt := zeroTime; Version := 0 |}.

(** One attempt.  [now] is [time.Now()]; [env] is what other connections
    commit between the SELECT of this call and its INSERT or UPDATE. *)
Definition _upsertRoomData (env : store -> store) (db : DBCluster) (now : Time)
    (hashTag key : string) (value : RedisValue) (s : pg roomDataModelV2)
    : pg roomDataModelV2 * outcome unit :=
  if IsZero value then (s, Ok ())
  else
    let model := newRoomDataModelV2 hashTag in
    match GetTableNameAndDBClientByModel db model with
    | Panic m => (s, Panic m)
    | Err e => (s, Err e)
    | Ok (tableName, client) =>
        match Select s client tableName hashTag with
        | (s1, Panic m) => (s1, Panic m)
        | (s1, Err pgErrNoRows) =>
            let model := {| HashTag := hashTag; Value := {[ key := value ]};
                            DeletedAt := zeroTime; CreatedAt := now;
                            UpdatedAt := now; Version := 0 |} in
            match GetTableNameAndDBClientByModel db model with
            | Panic m => (s1, Panic m)
            | Err e => (s1, Err e)
            | Ok (tableName, client) =>
                Insert (interfere env s1) client tableName hashTag model
            end
        | (s1, Err e) => (s1, Err e)
        | (s1, Ok model) =>
            match Update (interfere env s1) client tableName hashTag
                    (λ row, Version row =? Version model)
                    (λ row, {| HashTag := HashTag row;
                               Value := <[ key := value ]> (Value row);
                               DeletedAt := DeletedAt row;
                               CreatedAt := CreatedAt row;
                               UpdatedAt := now;
                               Version := int64 (Version model + 1) |}) with
            | (s2, Panic m) => (s2, Panic m)
            | (s2, Err e) => (s2, Err e)
            | (s2, Ok rowsAffected) =>
                if rowsAffected =? 0 then (s2, Err errNoRowsUpdated) else (s2, Ok ())
            end
        end
    end.

(** The retry loop [for i := 0; i < tryTimes; i++] with its variable [err];
    [envs i] is the interference met by attempt [i], [now i] its clock. *)
Fixpoint upsertRoomData_loop (envs : nat -> store -> store) (db : DBCluster)
    (now : nat -> Time) (hashTag key : string) (value : RedisValue)
    (i remaining : nat) (err : outcome unit) (s : pg roomDataModelV2)
    : pg roomDataModelV2 * outcome unit :=
  match remaining with
  | O => (s, err)
  | S remaining' =>
      match _upsertRoomData (envs i) db (now i) hashTag key value s with
      | (s', Err e) =>
          if isRetryErrorForUpdateInTx e
          then upsertRoomData_loop envs db now hashTag key value
                 (S i) remaining' (Err e) s'
          else (s', Err e)
      | r => r
      end
  end.

Definition upsertRoomData (envs : nat -> store -> store) (db : DBCluster)
    (now : nat -> Time) (hashTag key : string) (value : RedisValue) (tryTimes : Z)
    (s : pg roomDataModelV2) : pg roomDataModelV2 * outcome unit :=
  upsertRoomData_loop envs db now hashTag key value 0 (Z.to_nat tryTimes) (Ok ()) s.

(** *** Access and write records *)

Record roomWrittenRecordModel : Type := {
  Key : string;
  WrittenAt : Time;
  W_CreatedAt : Time
}.

Global Instance roomWrittenRecordModel_Model : Model roomWrittenRecordModel := {|
  ShardingKey := Key;
  GetTablePrefix := λ _, "room_written_record"
|}.

Record roomAccessedRecordModelV2 : Type := {
  A_HashTag : string;
  AccessedAt : Time;
  A_CreatedAt : Time
}.

Global Instance roomAccessedRecordModelV2_Model : Model roomAccessedRecordModelV2 := {|
  ShardingKey := A_HashTag;
  GetTablePrefix := λ _, "room_accessed_record_v2"
|}.

(** The columns the two bulk statements name: the primary key, and the
    timestamp of [SET ts = EXCLUDED.ts WHERE t.ts < EXCLUDED.ts]. *)
Class TsRecord (R : Type) : Type := {
  pk : R -> string;
  ts : R -> Time;
  set_ts : Time -> R -> R
}.

Global Instance roomWrittenRecordModel_Record : TsRecord roomWrittenRecordModel := {|
  pk := Key;
  ts := WrittenAt;
  set_ts := λ t r, {| Key := Key r; WrittenAt := t; W_CreatedAt := W_CreatedAt r |}
|}.

Global Instance roomAccessedRecordModelV2_Record : TsRecord roomAccessedRecordModelV2 := {|
  pk := A_HashTag;
  ts := AccessedAt;
  set_ts := λ t r, {| A_HashTag := A_HashTag r; AccessedAt := t; A_CreatedAt := A_CreatedAt r |}
|}.

(** [INSERT INTO t VALUES rows ON CONFLICT (pk) DO UPDATE SET ts = EXCLUDED.ts
    WHERE t.ts < EXCLUDED.ts], one proposed row after the other.  PostgreSQL
    lets one statement affect a row only once: a proposed row that meets a
    row this statement has inserted or updated ([touched]) raises a
    cardinality violation. *)
Fixpoint onConflictUpdate `{TsRecord R} (rows : list R) (touched : gset string)
    (t : gmap string R) : outcome (gmap string R) :=
  match rows with
  | [] => Ok t
  | row :: rest =>
      match t !! pk row with
      | None => onConflictUpdate rest ({[ pk row ]} ∪ touched) (<[ pk row := row ]> t)
      | Some existing =>
          if bool_decide (pk row ∈ touched) then Err pgCardinalityViolation
          else if ts existing <? ts row
          then onConflictUpdate rest ({[ pk row ]} ∪ touched)
                 (<[ pk row := set_ts (ts row) existing ]> t)
          else onConflictUpdate rest touched t
      end
  end.

(** The whole statement: it changes the table only when it succeeds. *)
Definition InsertOnConflict `{TsRecord R} (s : pg R) (client : pgDB) (name : string)
    (rows : list R) : pg R * outcome unit :=
  match onConflictUpdate rows ∅ (table s client name) with
  | Ok t => (set_table s client name t (INSERT client name), Ok ())
  | Err e => (logged s (INSERT client name), Err e)
  | Panic m => (logged s (INSERT client name), Panic m)
  end.

(** [clusterWrittenRecordModel] and [clusterAccessedRecordModelV2]. *)
Record clusterModel (R : Type) : Type := {
  tableName : string;
  client_ : pgDB;
  models : list R
}.
Global Arguments tableName {R} _.
Global Arguments client_ {R} _.
Global Arguments models {R} _.

(** The loop of [getClusterModelsFromWrittenRecordModels] and of
    [getClusterModelsFromAccessedRecordModelsV2] over the models, filling
    [clusterModelsMap]. *)
Fixpoint groupModels `{Model R} (db : DBCluster) (ms : list R)
    (clusterModelsMap : gmap string (clusterModel R))
    : outcome (gmap string (clusterModel R)) :=
  match ms with
  | [] => Ok clusterModelsMap
  | model :: rest =>
      match GetTableNameAndDBClientByModel db model with
      | Panic m => Panic m
      | Err e => Err e
      | Ok (tableName, client) =>
          match clusterModelsMap !! tableName with
          | Some origin =>
              groupModels db rest
                (<[ tableName := {| tableName := Storage.tableName origin;
                                    client_ := client_ origin;
                                    models := models origin ++ [model] |} ]>
                   clusterModelsMap)
          | None =>
              groupModels db rest
                (<[ tableName := {| tableName := tableName; client_ := client;
                                    models := [model] |} ]> clusterModelsMap)
          end
      end
  end.

(** Go ranges over a map in an unspecified order: [order] is the order this
    run happens to take, a rearrangement of the entries. *)
Definition getClusterModels `{Model R} (order : list (clusterModel R) -> list (clusterModel R))
    (db : DBCluster) (ms : list R) : outcome (list (clusterModel R)) :=
  clusterModelsMap ← groupModels db ms ∅;
  Ok (order ((map_to_list clusterModelsMap).*2)).

(** The loop [for _, clusterModel := range clusterModels] of the two bulk
    upserts: the first failing statement ends it. *)
Fixpoint upsertClusters `{TsRecord R} (cms : list (clusterModel R)) (s : pg R)
    : pg R * outcome unit :=
  match cms with
  | [] => (s, Ok ())
  | cm :: rest =>
      match InsertOnConflict s (client_ cm) (tableName cm) (models cm) with
      | (s', Ok _) => upsertClusters rest s'
      | r => r
      end
  end.

Definition bulkUpsert `{Model R} `{TsRecord R}
    (order : list (clusterModel R) -> list (clusterModel R))
    (db : DBCluster) (ms : list R) (s : pg R) : pg R * outcome unit :=
  match getClusterModels order db ms with
  | Panic m => (s, Panic m)
  | Err e => (s, Err e)
  | Ok clusterModels => upsertClusters clusterModels s
  end.

Definition bulkUpsertWrittenRecordModels := bulkUpsert (R := roomWrittenRecordModel).

Definition bulkUpsertAccessedRecordModelsV2 := bulkUpsert (R := roomAccessedRecordModelV2).

End Storage.

(** ** base/hash_tag_event.go: the hash-tag event pipeline *)
Module Event.
Import Go.

Definition HashTagAccessMode : Type := string.
Definition HashTagAccessModeRead : HashTagAccessMode := "read".
Definition HashTagAccessModeWrite : HashTagAccessMode := "write".

Definition metricReportEventsError : string := "error.report_events".
Definition metricSendEventPanic : string := "error.send_event_panic".
Definition metricDrainEventError : string := "error.drain_event".

(** Modelled from the spec: [utility.StringSet] is not part of the sources at
    hand; the spec calls it a deduplicated set of keys.  An event holds a
    pointer [*utility.StringSet]: a location in the store of the sets. *)
Definition loc : Type := nat.

Abbreviation sets := (gmap loc (gset string)).

Record HashTagEvent : Type := {
  HashTag : string;
  Keys : loc;
  AccessMode : HashTagAccessMode;
  AccessTime : Time
}.

(** The set behind a pointer ([Keys.ToSlice()], as a set). *)
Definition keysOf (h : sets) (l : loc) : gset string := default ∅ (h !! l).

(** [utility.NewStringSet(keys...)]: a new set, at a new location. *)
Definition NewStringSet (keys : list string) (h : sets) : loc * sets :=
  let l := fresh (dom h) in (l, <[ l := list_to_set keys ]> h).

(** [Keys.AddItems(items...)]: in place. *)
Definition AddItems (l : loc) (items : gset string) (h : sets) : sets :=
  <[ l := keysOf h l ∪ items ]> h.

Definition Check (h : sets) (event : HashTagEvent) : outcome unit :=
  if bool_decide (HashTag event = "") then Err ErrEventHashKeyEmpty
  else if bool_decide (AccessMode event = "") then Err ErrEventAccessModeEmpty
  else if Time_IsZero (AccessTime event) then Err ErrEventAccessTimeEmpty
  else if bool_decide (size (keysOf h (Keys event)) = 0%nat) then Err ErrEventNoKeys
  else Ok ().

Definition NewHashTagEvent (hashTag : string) (keys : list string)
    (accessMode : HashTagAccessMode) (accessTime : Time) (h : sets)
    : sets * outcome HashTagEvent :=
  let '(l, h') := NewStringSet keys h in
  let event := {| HashTag := hashTag; Keys := l;
                  AccessMode := accessMode; AccessTime := accessTime |} in
  match Check h' event with
  | Ok _ => (h', Ok event)
  | Err e => (h', Err e)
  | Panic m => (h', Panic m)
  end.

(** *** Buffered channels of events *)
Record chan : Type := {
  buf : list HashTagEvent;
  cap : nat;
  closed : bool
}.

(** [select { case ch <- event: ...; default: ... }]: [Some] the channel
    after the send, [None] when the default case runs.  A send on a closed
    channel panics. *)
Definition trySend (ch : chan) (event : HashTagEvent) : outcome (option chan) :=
  if closed ch then Panic "send on closed channel"
  else if (length (buf ch) <? cap ch)%nat
  then Ok (Some {| buf := buf ch ++ [event]; cap := cap ch; closed := closed ch |})
  else Ok None.

(** [close(ch)] *)
Definition close (ch : chan) : outcome chan :=
  if closed ch then Panic "close of closed channel"
  else Ok {| buf := buf ch; cap := cap ch; closed := true |}.

(** *** The service *)
Record HashTagEventReportConfig : Type := {
  URL : string;
  RequestMaxEvent : Z
}.

Record HashTagEventServiceConfig : Type := {
  EventReport : HashTagEventReportConfig;
  BufferLimit : Z
}.

(** One [logger.Error] record. *)
Record logRecord : Type := {
  subject : string;
  logged_events : list HashTagEvent;
  logged_error : option error
}.

(** One event of a request body [{"events": [...]}]. *)
Record reported : Type := {
  hash_tag : string;
  keys : gset string;
  access_mode : HashTagAccessMode;
  access_time : Time
}.

(** [*http.Response], as far as the code reads it: the status, and what
    reading the body gives. *)
Record Response : Type := {
  StatusCode : Z;
  Body : outcome string
}.

Record HashTagEventService : Type := {
  config : HashTagEventServiceConfig;
  eventBuffer : chan;
  events : gmap string HashTagEvent;
  collectedEventBuffer : chan;
  heap : sets;
  logger : list logRecord;
  metric : list string;
  requests : list (list reported)
}.

Definition with_eventBuffer (ch : chan) (service : HashTagEventService) :=
  {| config := config service; eventBuffer := ch; events := events service;
     collectedEventBuffer := collectedEventBuffer service; heap := heap service;
     logger := logger service; metric := metric service;
     requests := requests service |}.

Definition with_collectedEventBuffer (ch : chan) (service : HashTagEventService) :=
  {| config := config service; eventBuffer := eventBuffer service;
     events := events service; collectedEventBuffer := ch; heap := heap service;
     logger := logger service; metric := metric service;
     requests := requests service |}.

Definition with_events (m : gmap string HashTagEvent) (h : sets)
    (service : HashTagEventService) :=
  {| config := config service; eventBuffer := eventBuffer service; events := m;
     collectedEventBuffer := collectedEventBuffer service; heap := h;
     logger := logger service; metric := metric service;
     requests := requests service |}.

Definition with_heap (h : sets) (service : HashTagEventService) :=
  with_events (events service) h service.

(** [logger.Error(subject, ...)] followed by [metric.MetricIncrease(subject)]. *)
Definition record (r : logRecord) (service : HashTagEventService) :=
  {| config := config service; eventBuffer := eventBuffer service;
     events := events service;
     collectedEventBuffer := collectedEventBuffer service; heap := heap service;
     logger := logger service ++ [r]; metric := metric service ++ [subject r];
     requests := requests service |}.

Definition with_request (r : list reported) (service : HashTagEventService) :=
  {| config := config service; eventBuffer := eventBuffer service;
     events := events service;
     collectedEventBuffer := collectedEventBuffer service; heap := heap service;
     logger := logger service; metric := metric service;
     requests := requests service ++ [r] |}.

Definition aggregateEvent (event : HashTagEvent) (service : HashTagEventService)
    : HashTagEventService :=
  match events service !! HashTag event with
  | Some savedEvent =>
      let accessMode :=
        if bool_decide (AccessMode savedEvent = HashTagAccessModeWrite)
        then AccessMode savedEvent else AccessMode event in
      let accessTime :=
        if After (AccessTime savedEvent) (AccessTime event)
        then AccessTime savedEvent else AccessTime event in
      let h := AddItems (Keys savedEvent) (keysOf (heap service) (Keys event))
                 (heap service) in
      let event := {| HashTag := HashTag event; Keys := Keys savedEvent;
                      AccessMode := accessMode; AccessTime := accessTime |} in
      with_events (<[ HashTag event := event ]> (events service)) h service
  | None =>
      with_events (<[ HashTag event := event ]> (events service)) (heap service) service
  end.

(** [_collect]: every entry leaves the map; Go ranges over it in an
    unspecified order, [order] is the one taken. *)
Definition _collect (order : list HashTagEvent -> list HashTagEvent)
    (service : HashTagEventService) : list HashTagEvent * HashTagEventService :=
  (order ((map_to_list (events service)).*2),
   with_events ∅ (heap service) service).

(** What [json.Marshal] writes for one event. *)
Definition marshal (h : sets) (event : HashTagEvent) : reported :=
  {| hash_tag := HashTag event; keys := keysOf h (Keys event);
     access_mode := AccessMode event; access_time := AccessTime event |}.

(** The deferred closure of [_reportEvents]: it reads [resp.Body], whatever
    [Post] returned. *)
Definition closeBody (resp : option Response) : outcome unit :=
  match resp with
  | None => Panic "invalid memory address or nil pointer dereference"
  | Some _ => Ok ()
  end.

(** A function body followed by its deferred call: a panic of either is the
    panic of the function. *)
Definition defer {A} (body : outcome A) (deferred : outcome unit) : outcome A :=
  match body with
  | Panic m => Panic m
  | _ => match deferred with
         | Panic m => Panic m
         | _ => body
         end
  end.

Section Pipeline.

(** [service.client.Post]: the answer to the n-th request: a response or
    [nil], and an error or [nil]. *)
Variable Post : nat -> list reported -> option Response * option error.

Definition _reportEvents (evs : list HashTagEvent) (service : HashTagEventService)
    : HashTagEventService * outcome unit :=
  if (length evs =? 0)%nat then (service, Ok ())
  else
    let requestBody := marshal (heap service) <$> evs in
    let '(resp, err) := Post (length (requests service)) requestBody in
    (with_request requestBody service,
     defer
       match err with
       | Some e => Err e
       | None =>
           match resp with
           | None => Panic "invalid memory address or nil pointer dereference"
           | Some r =>
               if negb (StatusCode r =? 200)
               then match Body r with
                    | Ok respBody => Err (errResponse (StatusCode r) respBody)
                    | Err _ => Err (errResponseRead (StatusCode r))
                    | Panic m => Panic m
                    end
               else Ok ()
           end
       end
       (closeBody resp)).

Definition recordReportEventsError (evs : list HashTagEvent) (err : error)
    (service : HashTagEventService) : HashTagEventService :=
  record {| subject := metricReportEventsError; logged_events := evs;
            logged_error := Some err |} service.

(** The end of one round of the loop of [reportEvents], once the round has
    assembled its batch [evs]: the batch is sent and then forgotten. *)
Definition reportEvents_round (evs : list HashTagEvent)
    (service : HashTagEventService) : HashTagEventService * outcome unit :=
  match _reportEvents evs service with
  | (service', Err err) => (recordReportEventsError evs err service', Ok ())
  | r => r
  end.

(** [send]: the deferred [recover] turns a panic into a log record and a
    metric; the function then returns its zero result, a [nil] error. *)
Definition send (event : HashTagEvent) (service : HashTagEventService)
    : HashTagEventService * outcome unit :=
  match trySend (eventBuffer service) event with
  | Ok (Some ch) => (with_eventBuffer ch service, Ok ())
  | Ok None => (service, Err (errBufferFull (BufferLimit (config service)) (HashTag event)))
  | Err e => (service, Err e)
  | Panic _ =>
      (record {| subject := metricSendEventPanic; logged_events := [];
                 logged_error := None |} service, Ok ())
  end.

Definition SendEvent (hashTag : string) (keys : list string)
    (accessMode : HashTagAccessMode) (accessTime : Time)
    (service : HashTagEventService) : HashTagEventService * outcome unit :=
  match NewHashTagEvent hashTag keys accessMode accessTime (heap service) with
  | (h, Ok event) => send event (with_heap h service)
  | (h, Err err) => (with_heap h service, Err err)
  | (h, Panic m) => (with_heap h service, Panic m)
  end.

(** The two channels [drainEvents] empties. *)
Inductive buffer : Type := CollectedEventBuffer | EventBuffer.

Definition get_buffer (b : buffer) (service : HashTagEventService) : chan :=
  match b with
  | CollectedEventBuffer => collectedEventBuffer service
  | EventBuffer => eventBuffer service
  end.

Definition set_buffer (b : buffer) (ch : chan) (service : HashTagEventService) :=
  match b with
  | CollectedEventBuffer => with_collectedEventBuffer ch service
  | EventBuffer => with_eventBuffer ch service
  end.

(** The loop of [closeAndEmptifyChannelWithTimer] over a closed channel.
    Receiving from a closed channel is always possible, so whenever the
    timer has fired the [select] picks either case; [fire = Some n] says
    that the run picks the timer case at round [n]. *)
Fixpoint emptify (fire : option nat) (b : buffer) (pending : list HashTagEvent)
    (service : HashTagEventService) : HashTagEventService * outcome unit :=
  match fire with
  | Some O => (service, Err errDrainEventTimeout)
  | _ =>
      match pending with
      | [] => (service, Ok ())
      | event :: rest =>
          let ch := get_buffer b service in
          let service := set_buffer b {| buf := rest; cap := cap ch; closed := closed ch |} service in
          emptify (Nat.pred <$> fire) b rest (aggregateEvent event service)
      end
  end.

Definition closeAndEmptifyChannelWithTimer (fire : option nat) (b : buffer)
    (service : HashTagEventService) : HashTagEventService * outcome unit :=
  match close (get_buffer b service) with
  | Ok ch => emptify fire b (buf ch) (set_buffer b ch service)
  | Err e => (service, Err e)
  | Panic m => (service, Panic m)
  end.

(** The loop [for _, event := range service.events] of [drainEvents], with
    the batch [evs] collected so far. *)
Fixpoint flush (requestMaxEvent : Z) (pending evs : list HashTagEvent)
    (service : HashTagEventService)
    : HashTagEventService * outcome (list HashTagEvent) :=
  match pending with
  | [] => (service, Ok evs)
  | event :: rest =>
      let evs := evs ++ [event] in
      if Z.of_nat (length evs) =? requestMaxEvent
      then match _reportEvents evs service with
           | (service', Ok _) => flush requestMaxEvent rest [] service'
           | (service', Err err) => (service', Err err)
           | (service', Panic m) => (service', Panic m)
           end
      else flush requestMaxEvent rest evs service
  end.

(** [fire1] and [fire2]: when the timer case is picked while the first and
    the second channel are emptied; [order]: the order in which Go ranges
    over the map. *)
Definition drainEvents (fire1 fire2 : option nat)
    (order : list HashTagEvent -> list HashTagEvent)
    (service : HashTagEventService) : HashTagEventService * outcome unit :=
  match closeAndEmptifyChannelWithTimer fire1 CollectedEventBuffer service with
  | (service, Err err) => (service, Err err)
  | (service, Panic m) => (service, Panic m)
  | (service, Ok _) =>
      match closeAndEmptifyChannelWithTimer fire2 EventBuffer service with
      | (service, Err err) => (service, Err err)
      | (service, Panic m) => (service, Panic m)
      | (service, Ok _) =>
          let requestMaxEvent := RequestMaxEvent (EventReport (config service)) in
          match flush requestMaxEvent (order ((map_to_list (events service)).*2)) []
                  service with
          | (service, Err err) => (service, Err err)
          | (service, Panic m) => (service, Panic m)
          | (service, Ok evs) => _reportEvents evs service
          end
      end
  end.

Definition recordDrainError (err : error) (service : HashTagEventService) :=
  record {| subject := metricDrainEventError; logged_events := [];
            logged_error := Some err |} service.

(** [Stop], after the workers have returned ([service.wg.Wait()]). *)
Definition Stop (fire1 fire2 : option nat)
    (order : list HashTagEvent -> list HashTagEvent)
    (service : HashTagEventService) : HashTagEventService * outcome unit :=
  match drainEvents fire1 fire2 order service with
  | (service', Err err) => (recordDrainError err service', Ok ())
  | r => r
  end.

End Pipeline.

End Event.

(** ** service/service_server.go: the command dispatcher *)
Module Server.
Import Go.

Inductive RESPType : Type :=
| SimpleStringRespType | BulkStringRespType | ErrorRespType
| IntegerRespType | NilRespType | ArrayRespType.

(** [commands.RESPData]: a type tag and a value of any Go type. *)
Inductive RESPData : Type :=
| RESP (DataType : RESPType) (Value : RESPValue)
with RESPValue : Type :=
| AnyString (s : string)
| AnyError (e : error)
| AnyInt64 (n : Z)
| AnyArray (items : list RESPData)
| AnyNil.

(** The errors written to a connection: an error as it is, a load error
    ([newLoadError]), or [errInvalidResponse]. *)
Inductive respError : Type :=
| plainError (e : error)
| loadError (e : error)
| errInvalidResponse.

(** The calls on a [redcon.Conn]. *)
Inductive write : Type :=
| WriteString (s : string)
| WriteBulkString (s : string)
| WriteError (e : respError)
| WriteInt64 (n : Z)
| WriteNull
| WriteArray (n : nat).

(** The calls on the metric client. *)
Inductive metricCall : Type :=
| MetricIncrease (name : string)
| MetricTimeDuration (name : string).

Section Dispatcher.

(** The packages behind the dispatcher ([commands], the load engine, the
    transaction manager, the Redis cluster, the event service) are not part
    of the sources at hand: they are parameters, acting on a state [World]. *)
Variable World : Type.
Variable Commander : Type.
Variable Transaction : Type.
Variable ParseCommand : list string -> outcome Commander.
Variable Name : Commander -> string.
Variable ReadKeys WriteKeys : Commander -> list string.
Variable CheckAndGetCommandKeysHashTag : Commander -> outcome string.
Variable GetCommnadKeysAccessMode : Commander -> string.
Variable Load : string -> Time -> string -> World -> World * outcome unit.
Variable NewTransaction : World -> Transaction.
Variable Process : Transaction -> Commander -> World -> Transaction * World * RESPData.
Variable IsClosed : Transaction -> bool.
Variable ExecuteCommand : Commander -> World -> World * RESPData.
Variable SendEvent : string -> list string -> string -> Time -> World -> World * outcome unit.
Variable AnyToString : RESPValue -> string.

(** What serving one connection changes: the replies written to it, the
    metric calls, the transaction bound to it, and the world behind. *)
Record serving : Type := {
  conn : list write;
  metric : list metricCall;
  transaction : option Transaction;
  world : World
}.

Definition written (ws : list write) (st : serving) : serving :=
  {| conn := conn st ++ ws; metric := metric st;
     transaction := transaction st; world := world st |}.

Definition metered (m : metricCall) (st : serving) : serving :=
  {| conn := conn st; metric := metric st ++ [m];
     transaction := transaction st; world := world st |}.

Definition with_transaction (t : option Transaction) (st : serving) : serving :=
  {| conn := conn st; metric := metric st; transaction := t; world := world st |}.

Definition with_world (w : World) (st : serving) : serving :=
  {| conn := conn st; metric := metric st;
     transaction := transaction st; world := w |}.

Definition isTransactionNeeded (command : Commander) : bool :=
  bool_decide (Name command ∈ ["watch"; "multi"]).

(** The result of [preProcessCommand]: [nil], an error of the hash tag
    check as it is, or the error of [Load] inside [newLoadError]. *)
Inductive checked : Type :=
| Passed
| Failed (e : respError)
| Panicked (m : string).

Definition preProcessCommand (command : Commander) (accessTime : Time)
    (st : serving) : serving * checked :=
  match CheckAndGetCommandKeysHashTag command with
  | Panic m => (st, Panicked m)
  | Err e => (st, Failed (plainError e))
  | Ok hashTag =>
      match Load hashTag accessTime (GetCommnadKeysAccessMode command) (world st) with
      | (w, Ok _) => (with_world w st, Passed)
      | (w, Err e) => (with_world w st, Failed (loadError e))
      | (w, Panic m) => (with_world w st, Panicked m)
      end
  end.

(** The error of [getTransactionIfNeeded] is always [nil]. *)
Definition getTransactionIfNeeded (command : Commander) (st : serving)
    : serving * outcome (option Transaction) :=
  match transaction st with
  | None =>
      if isTransactionNeeded command
      then let t := NewTransaction (world st) in
           (metered (MetricIncrease "transaction.new") (with_transaction (Some t) st),
            Ok (Some t))
      else (st, Ok None)
  | Some t => (st, Ok (Some t))
  end.

Fixpoint writeDataToConnection (data : RESPData) : list write :=
  match data with
  | RESP SimpleStringRespType v => [WriteString (AnyToString v)]
  | RESP BulkStringRespType v => [WriteBulkString (AnyToString v)]
  | RESP ErrorRespType (AnyError e) => [WriteError (plainError e)]
  | RESP ErrorRespType _ => [WriteError errInvalidResponse]
  | RESP IntegerRespType (AnyInt64 n) => [WriteInt64 n]
  | RESP IntegerRespType _ => [WriteError errInvalidResponse]
  | RESP NilRespType _ => [WriteNull]
  | RESP ArrayRespType (AnyArray items) =>
      WriteArray (length items) :: flat_map writeDataToConnection items
  | RESP ArrayRespType _ => [WriteError errInvalidResponse]
  end.

Definition sendCommandEvents (command : Commander) (accessTime : Time)
    (w : World) : World * outcome unit :=
  match CheckAndGetCommandKeysHashTag command with
  | Panic m => (w, Panic m)
  | Err e => (w, Err e)
  | Ok hashTag =>
      if bool_decide (hashTag = "") then (w, Ok ())
      else SendEvent hashTag (ReadKeys command ++ WriteKeys command)
             (GetCommnadKeysAccessMode command) accessTime w
  end.

(** The part of the loop body after the three checks: execute, reply,
    send the event. *)
Definition serveCommand (command : Commander) (t : option Transaction)
    (serveStartTime : Time) (st : serving) : serving * outcome unit :=
  let '(st, result) :=
    match t with
    | Some t =>
        let st := metered (MetricIncrease "process.transaction") st in
        let '(t', w, result) := Process t command (world st) in
        let st := with_world w (with_transaction (Some t') st) in
        let st := if bool_decide (Name command = "exec")
                  then metered (MetricTimeDuration "process.transaction.duration") st
                  else st in
        (if IsClosed t' then with_transaction None st else st, result)
    | None =>
        let st := metered (MetricIncrease "process.single_command") st in
        let '(w, result) := ExecuteCommand command (world st) in
        (metered (MetricTimeDuration "process.single_connamd.duration") (with_world w st),
         result)
    end in
  let st := written (writeDataToConnection result) st in
  match sendCommandEvents command serveStartTime (world st) with
  | (w, Panic m) => (with_world w st, Panic m)
  | (w, r) =>
      let st := with_world w st in
      let st := match r with
                | Err _ => metered (MetricIncrease "error.send_event") st
                | _ => st
                end in
      let st := metered (MetricTimeDuration "process.send_event.duration") st in
      (metered (MetricTimeDuration "process.command.duration") st, Ok ())
  end.

(** [connServeHandler]: the loop [for _, cmd := range cmds].  Each of the
    three error branches ends with [return]. *)
Fixpoint connServeHandler (serveStartTime : Time) (cmds : list (list string))
    (st : serving) : serving * outcome unit :=
  match cmds with
  | [] => (st, Ok ())
  | args :: rest =>
      let st := metered (MetricIncrease "process.command") st in
      match ParseCommand args with
      | Panic m => (st, Panic m)
      | Err err =>
          (written [WriteError (plainError err)]
             (metered (MetricIncrease "error.parse_command") st), Ok ())
      | Ok command =>
          match preProcessCommand command serveStartTime st with
          | (st, Panicked m) => (st, Panic m)
          | (st, Failed err) =>
              (written [WriteError err]
                 (metered (MetricIncrease "error.pre_process") st), Ok ())
          | (st, Passed) =>
              match getTransactionIfNeeded command st with
              | (st, Panic m) => (st, Panic m)
              | (st, Err err) =>
                  (written [WriteError (plainError err)]
                     (metered (MetricIncrease "error.get_transaction") st), Ok ())
              | (st, Ok t) =>
                  match serveCommand command t serveStartTime st with
                  | (st, Ok _) => connServeHandler serveStartTime rest st
                  | r => r
                  end
              end
          end
      end
  end.

End Dispatcher.

Global Arguments conn {World Transaction} _.
Global Arguments metric {World Transaction} _.
Global Arguments transaction {World Transaction} _.
Global Arguments world {World Transaction} _.
Global Arguments written {World Transaction} ws st.
Global Arguments metered {World Transaction} m st.

End Server.

(** ** base/db.go: building the cluster from its configuration *)
Module DbConfig.
Import Go Db.

(** [DBConfig], as far as [NewDBClusterFromConfig] reads it: the range of
    shard indexes the database serves.  The connection options are read by
    [newDBClient] only. *)
Record DBConfig : Type := {
  StartShardingIndex : Z;
  EndShardingIndex : Z;
  URL : string
}.

Record DBClusterConfig : Type := {
  ShardingCount : Z;
  Shardings : list DBConfig
}.

Section Connect.

(** [newDBClient]: checking the options, parsing the URL and [pg.Connect]
    are outside the sources at hand; the result is a handle or an error. *)
Variable newDBClient : DBConfig -> outcome pgDB.

(** The loop [for _, cfg := range config.Shardings] appending to
    [dbCluster.clients]. *)
Fixpoint connectAll (cfgs : list DBConfig) (clients : list dbClient)
    : outcome (list dbClient) :=
  match cfgs with
  | [] => Ok clients
  | cfg :: rest =>
      match newDBClient cfg with
      | Ok client =>
          connectAll rest
            (clients ++ [ {| startIndex := StartShardingIndex cfg;
                             endIndex := EndShardingIndex cfg;
                             client := client |} ])
      | Err e => Err e
      | Panic m => Panic m
      end
  end.

Definition NewDBClusterFromConfig (config : DBClusterConfig) : outcome DBCluster :=
  let shardingCount := ShardingCount config in
  if shardingCount <=? 0
  then Err (errOther "sharding_count should be greater than 0")
  else
    match connectAll (Shardings config) [] with
    | Ok clients => Ok {| clients := clients; shardingCount := shardingCount |}
    | Err e => Err e
    | Panic m => Panic m
    end.

End Connect.

End DbConfig.

(** ** The storage layer: loading, replacing and deleting documents *)
Module Documents.
Import Go Db Storage.

(** [query.WherePK().Where(cond).Select()]: the row under the key when it
    satisfies the condition, else [pg.ErrNoRows]. *)
Definition SelectWhere {R} (s : pg R) (client : pgDB) (name pk : string)
    (cond : R -> bool) : pg R * outcome R :=
  (logged s (SELECT client name pk),
   match table s client name !! pk with
   | Some row => if cond row then Ok row else Err pgErrNoRows
   | None => Err pgErrNoRows
   end).

(** [loadDataByID]: the document, or [nil] when there is no live row.  A
    [deleted_at] that is [NULL] is the zero time of the Go struct. *)
Definition loadDataByID (db : DBCluster) (hashTag : string) (s : pg roomDataModelV2)
    : pg roomDataModelV2 * outcome (option roomDataModelV2) :=
  match GetTableNameAndDBClientByModel db (newRoomDataModelV2 hashTag) with
  | Panic m => (s, Panic m)
  | Err e => (s, Err e)
  | Ok (tableName, client) =>
      match SelectWhere s client tableName hashTag (λ row, Time_IsZero (DeletedAt row)) with
      | (s1, Ok model) => (s1, Ok (Some model))
      | (s1, Err pgErrNoRows) => (s1, Ok None)
      | (s1, Err e) => (s1, Err e)
      | (s1, Panic m) => (s1, Panic m)
      end
  end.

(** [_upsertRoomDataValue]: one attempt at replacing the whole value map,
    inside one transaction; [env] is what other connections commit between
    the SELECT and the INSERT or UPDATE of the transaction. *)
Definition _upsertRoomDataValue (env : store -> store) (dbCluster : DBCluster)
    (now : Time) (hashTag : string) (value : gmap string RedisValue)
    (s : pg roomDataModelV2) : pg roomDataModelV2 * outcome unit :=
  match GetTableNameAndDBClientByModel dbCluster (newRoomDataModelV2 hashTag) with
  | Panic m => (s, Panic m)
  | Err e => (s, Err e)
  | Ok (tableName, db) =>
      match Select s db tableName hashTag with
      | (s1, Panic m) => (s1, Panic m)
      | (s1, Err pgErrNoRows) =>
          Insert (interfere env s1) db tableName hashTag
            {| HashTag := hashTag; Value := value; DeletedAt := zeroTime;
               CreatedAt := now; UpdatedAt := now; Version := 0 |}
      | (s1, Err e) => (s1, Err e)
      | (s1, Ok model) =>
          match Update (interfere env s1) db tableName hashTag
                  (λ row, Version row =? Version model)
                  (λ row, {| HashTag := HashTag row; Value := value;
                             DeletedAt := DeletedAt row; CreatedAt := CreatedAt row;
                             UpdatedAt := now;
                             Version := int64 (Version model + 1) |}) with
          | (s2, Panic m) => (s2, Panic m)
          | (s2, Err e) => (s2, Err e)
          | (s2, Ok rowsAffected) =>
              if rowsAffected =? 0 then (s2, Err errNoRowsUpdated) else (s2, Ok ())
          end
      end
  end.



(** [deleteRoomData]: [value = value - key], [version = version + 1]
    computed by the server, whatever the version; the number of rows
    affected is not read. *)
Definition deleteRoomData (db : DBCluster) (now : Time) (hashTag key : string)
    (s : pg roomDataModelV2) : pg roomDataModelV2 * outcome unit :=
  match GetTableNameAndDBClientByModel db (newRoomDataModelV2 hashTag) with
  | Panic m => (s, Panic m)
  | Err e => (s, Err e)
  | Ok (tableName, client) =>
      match Update s client tableName hashTag (λ _, true)
              (λ row, {| HashTag := HashTag row; Value := delete key (Value row);
                         DeletedAt := DeletedAt row; CreatedAt := CreatedAt row;
                         UpdatedAt := now; Version := Version row + 1 |}) with
      | (s', Ok _) => (s', Ok ())
      | (s', Err e) => (s', Err e)
      | (s', Panic m) => (s', Panic m)
      end
  end.

(** What a whole call of another connection commits, as an interference. *)
Definition commits (call : pg roomDataModelV2 -> pg roomDataModelV2 * outcome unit)
    (t : store) : store :=
  tables (call {| tables := t; log := [] |}).1.

End Documents.

(** ** The storage layer: single records and the hash-tag-keys index *)
Module Records.
Import Go Db Storage.

(** [query.WherePK().Select()] of one record, [nil] when there is none:
    [loadWrittenRecordModelByID] and [loadAccessedRecordModelByID]. *)
Definition loadByID `{Model R} (model : R) (pk : string) (db : DBCluster) (s : pg R)
    : pg R * outcome (option R) :=
  match GetTableNameAndDBClientByModel db model with
  | Panic m => (s, Panic m)
  | Err e => (s, Err e)
  | Ok (tableName, client) =>
      match Select s client tableName pk with
      | (s1, Ok row) => (s1, Ok (Some row))
      | (s1, Err pgErrNoRows) => (s1, Ok None)
      | (s1, Err e) => (s1, Err e)
      | (s1, Panic m) => (s1, Panic m)
      end
  end.

Definition loadWrittenRecordModelByID (db : DBCluster) (id : string) :=
  loadByID {| Key := id; WrittenAt := zeroTime; W_CreatedAt := zeroTime |} id db.

Definition loadAccessedRecordModelByID (db : DBCluster) (id : string) :=
  loadByID {| A_HashTag := id; AccessedAt := zeroTime; A_CreatedAt := zeroTime |} id db.

(** [query.WherePK().Where("written_at=?", writtenAt).Delete()]; the result
    of the statement is not read.  The statement log has no entry for a
    DELETE and stays as it is. *)
Definition deleteRoomWrittenRecordModel (db : DBCluster) (key : string)
    (writtenAt : Time) (s : pg roomWrittenRecordModel)
    : pg roomWrittenRecordModel * outcome unit :=
  match GetTableNameAndDBClientByModel db
          {| Key := key; WrittenAt := zeroTime; W_CreatedAt := zeroTime |} with
  | Panic m => (s, Panic m)
  | Err e => (s, Err e)
  | Ok (tableName, client) =>
      match table s client tableName !! key with
      | Some row =>
          if WrittenAt row =? writtenAt
          then ({| tables := <[ (client, tableName) := delete key (table s client tableName) ]>
                               (tables s);
                   log := log s |}, Ok ())
          else (s, Ok ())
      | None => (s, Ok ())
      end
  end.

Definition HashTagKeysStatus : Type := string.
Definition HashTagKeysStatusNeedSynced : HashTagKeysStatus := "need_synced".
Definition HashTagKeysStatusSynced : HashTagKeysStatus := "synced".
Definition HashTagKeysStatusCleaned : HashTagKeysStatus := "cleaned".

Record roomHashTagKeys : Type := {
  K_HashTag : string;
  K_Keys : list string;
  K_AccessedAt : Time;
  K_WrittenAt : Time;
  K_SyncedAt : Time;
  K_CreatedAt : Time;
  K_UpdatedAt : Time;
  K_Status : HashTagKeysStatus;
  K_Version : Z
}.

Global Instance roomHashTagKeys_Model : Model roomHashTagKeys := {|
  ShardingKey := K_HashTag;
  GetTablePrefix := λ _, "room_hash_tag_keys"
|}.

(** The guarded update of [SetStatusAsSynced] and [SetStatusAsCleaned]:
    anything but one row affected is [errNoRowsUpdated].  The Go struct
    [model] itself is not changed by the call. *)
Definition setStatus (set : roomHashTagKeys -> roomHashTagKeys)
    (model : roomHashTagKeys) (db : DBCluster) (s : pg roomHashTagKeys)
    : pg roomHashTagKeys * outcome unit :=
  match GetTableNameAndDBClientByModel db model with
  | Panic m => (s, Panic m)
  | Err e => (s, Err e)
  | Ok (tableName, client) =>
      match Update s client tableName (K_HashTag model)
              (λ row, K_Version row =? K_Version model) set with
      | (s', Panic m) => (s', Panic m)
      | (s', Err e) => (s', Err e)
      | (s', Ok rowsAffected) =>
          if negb (rowsAffected =? 1) then (s', Err errNoRowsUpdated) else (s', Ok ())
      end
  end.

Definition SetStatusAsSynced (model : roomHashTagKeys) (db : DBCluster) (t : Time) :=
  setStatus (λ row, {| K_HashTag := K_HashTag row; K_Keys := K_Keys row;
                       K_AccessedAt := K_AccessedAt row; K_WrittenAt := K_WrittenAt row;
                       K_SyncedAt := t; K_CreatedAt := K_CreatedAt row;
                       K_UpdatedAt := t; K_Status := HashTagKeysStatusSynced;
                       K_Version := int64 (K_Version model + 1) |}) model db.

Definition SetStatusAsCleaned (model : roomHashTagKeys) (db : DBCluster) (t : Time) :=
  setStatus (λ row, {| K_HashTag := K_HashTag row; K_Keys := K_Keys row;
                       K_AccessedAt := K_AccessedAt row; K_WrittenAt := K_WrittenAt row;
                       K_SyncedAt := K_SyncedAt row; K_CreatedAt := K_CreatedAt row;
                       K_UpdatedAt := t; K_Status := HashTagKeysStatusCleaned;
                       K_Version := int64 (K_Version model + 1) |}) model db.

End Records.

(** * Properties *)

(** ** The shard mapper *)
Module DbFacts.
Import Go Db.

Example crc_check_value :
  Crc32.ChecksumIEEE (Crc32.bytes_of_string "123456789") = 0xcbf43926.
Proof. vm_compute. reflexivity. Qed.

Example table_name_example : table_name "room_data_v2" 17 = "room_data_v2_17".
Proof. vm_compute. reflexivity. Qed.

(** A range contains an index. *)
Definition covers (c : dbClient) (index : Z) : Prop :=
  startIndex c <= index <= endIndex c.

Lemma scanClients_None (cs : list dbClient) (index : Z) :
  scanClients cs index = None <-> (forall c, c ∈ cs -> ~ covers c index).
Proof.
  unfold covers. induction cs as [|c cs IH]; simpl.
  - split; [intros _ c Hc; inversion Hc | reflexivity].
  - destruct (startIndex c <=? index) eqn:Hs, (index <=? endIndex c) eqn:He; simpl.
    + split; [discriminate|]. intros Hall. exfalso.
      apply (Hall c); [left | lia].
    + rewrite IH. split.
      * intros Hall c' Hc'. apply elem_of_cons in Hc' as [->|Hc']; [lia | auto].
      * intros Hall c' Hc'. apply Hall. by right.
    + rewrite IH. split.
      * intros Hall c' Hc'. apply elem_of_cons in Hc' as [->|Hc']; [lia | auto].
      * intros Hall c' Hc'. apply Hall. by right.
    + rewrite IH. split.
      * intros Hall c' Hc'. apply elem_of_cons in Hc' as [->|Hc']; [lia | auto].
      * intros Hall c' Hc'. apply Hall. by right.
Qed.

Lemma scanClients_Some (cs : list dbClient) (index : Z) (h : pgDB) :
  scanClients cs index = Some h ->
  exists c, c ∈ cs /\ client c = h /\ covers c index.
Proof.
  unfold covers. induction cs as [|c cs IH]; simpl; [discriminate|].
  destruct (startIndex c <=? index) eqn:Hs, (index <=? endIndex c) eqn:He; simpl.
  - intros [= <-]. exists c. split; [left | split; [done | lia]].
  - intros Hr. destruct (IH Hr) as (c' & ? & ? & ?). exists c'. split; [by right | done].
  - intros Hr. destruct (IH Hr) as (c' & ? & ? & ?). exists c'. split; [by right | done].
  - intros Hr. destruct (IH Hr) as (c' & ? & ? & ?). exists c'. split; [by right | done].
Qed.

Lemma uint32_small (n : Z) : 0 <= n < 2 ^ 32 -> uint32 n = n.
Proof. intros Hn. unfold uint32. apply Z.mod_small. lia. Qed.

Lemma getTableIndex_small (key : string) (n : Z) :
  0 < n < 2 ^ 32 ->
  getTableIndex key n = Ok (Crc32.ChecksumIEEE (Crc32.bytes_of_string key) mod n).
Proof.
  intros Hn. unfold getTableIndex. rewrite uint32_small by lia.
  destruct (n =? 0) eqn:E; [lia | reflexivity].
Qed.

(** The scan stops at the first range, in the order of the list, that
    contains the index. *)
Lemma scanClients_first (cs : list dbClient) (index : Z) (h : pgDB) :
  scanClients cs index = Some h <->
  exists pre c post,
    cs = pre ++ c :: post /\
    (forall c', c' ∈ pre -> ~ covers c' index) /\
    covers c index /\ client c = h.
Proof.
  unfold covers. induction cs as [|c0 cs IH]; simpl.
  - split; [discriminate|]. intros (pre & c & post & Heq & _). by destruct pre.
  - destruct ((startIndex c0 <=? index) && (index <=? endIndex c0)) eqn:Hc.
    + apply andb_true_iff in Hc as [H1 H2]. split.
      * intros [= <-]. exists [], c0, cs. split; [done|]. split; [|lia].
        intros c' Hc'. inversion Hc'.
      * intros (pre & c & post & Heq & Hpre & Hcov & Hcl).
        destruct pre as [|p pre]; simpl in Heq; simplify_eq; [done|].
        exfalso. apply (Hpre p); [left | lia].
    + apply andb_false_iff in Hc. rewrite IH. split.
      * intros (pre & c & post & -> & Hpre & Hcov & Hcl).
        exists (c0 :: pre), c, post. split; [done|]. split; [|done].
        intros c' Hc'. apply elem_of_cons in Hc' as [->|Hc']; [lia | by apply Hpre].
      * intros (pre & c & post & Heq & Hpre & Hcov & Hcl).
        destruct pre as [|p pre]; simpl in Heq; simplify_eq; [lia|].
        exists pre, c, post. split; [done|].
        split; [|done]. intros c' Hc'. apply Hpre. by right.
Qed.

(** C6, as the code has it.  For a sharding count [0 < N < 2^32] the shard
    index of a model is [CRC32-IEEE(key) mod N], it lies in [[0, N)], the
    resolved table is the model's prefix, ["_"] and the index in decimal,
    the resolved client is that of the first configured range containing
    the index (the ranges before it in the list do not contain it), and
    when no configured range contains the index the resolution fails with
    the no-DB-client error. *)
Theorem shard_resolution `{Model M} (dbCluster : DBCluster) (model : M) :
  0 < shardingCount dbCluster < 2 ^ 32 ->
  let N := shardingCount dbCluster in
  let index := Crc32.ChecksumIEEE (Crc32.bytes_of_string (ShardingKey model)) mod N in
  getTableIndex (ShardingKey model) N = Ok index /\
  0 <= index < N /\
  (forall pre c post,
     clients dbCluster = pre ++ c :: post ->
     (forall c', c' ∈ pre -> ~ covers c' index) ->
     covers c index ->
     GetTableNameAndDBClientByModel dbCluster model
       = Ok (GetTablePrefix model +:+ "_" +:+ pretty index, client c)) /\
  ((forall c, c ∈ clients dbCluster -> ~ covers c index) ->
     GetTableNameAndDBClientByModel dbCluster model = Err ErrNoDBClient).
Proof.
  intros HN N index.
  assert (Hidx : getTableIndex (ShardingKey model) N = Ok index)
    by (apply getTableIndex_small; exact HN).
  split; [exact Hidx|].
  split; [apply Z.mod_pos_bound; lia|].
  split.
  - intros pre c post Hsplit Hpre Hcov.
    assert (Hfirst : getClientByIndex dbCluster index = Some (client c)).
    { unfold getClientByIndex. apply scanClients_first.
      exists pre, c, post. done. }
    unfold GetTableNameAndDBClientByModel. fold N. rewrite Hidx. simpl.
    rewrite Hfirst. reflexivity.
  - intros Hnone. unfold GetTableNameAndDBClientByModel. fold N. rewrite Hidx. simpl.
    apply scanClients_None in Hnone. unfold getClientByIndex. rewrite Hnone.
    reflexivity.
Qed.

Definition two_shards : DBCluster :=
  {| clients := [ {| startIndex := 0; endIndex := 7; client := 1%nat |};
                  {| startIndex := 8; endIndex := 11; client := 2%nat |} ];
     shardingCount := 16 |}.

Abbreviation document := Storage.newRoomDataModelV2.

(** Sixteen shards and two databases whose ranges [[0, 7]] and [[3, 11]]
    overlap. *)
Definition overlapping_shards : DBCluster :=
  {| clients := [ {| startIndex := 0; endIndex := 7; client := 1%nat |};
                  {| startIndex := 3; endIndex := 11; client := 2%nat |} ];
     shardingCount := 16 |}.

(** Hash tag ["a"] falls on shard 3, which both ranges contain: the first
    client serves it.  Hash tag ["t"] falls on shard 8, which the second
    range alone contains: the second client serves it.  Hash tag ["u42"]
    falls on shard 14, which no range contains. *)
Lemma shard_resolution_witness :
  GetTableNameAndDBClientByModel overlapping_shards (document "a")
    = Ok ("room_data_v2_3", 1%nat) /\
  GetTableNameAndDBClientByModel overlapping_shards (document "t")
    = Ok ("room_data_v2_8", 2%nat) /\
  GetTableNameAndDBClientByModel overlapping_shards (document "u42")
    = Err ErrNoDBClient.
Proof.
  split; [|split].
  - destruct (shard_resolution overlapping_shards (document "a"))
      as (_ & _ & Hres & _); [vm_compute; done|].
    rewrite (Hres [] {| startIndex := 0; endIndex := 7; client := 1%nat |}
               [ {| startIndex := 3; endIndex := 11; client := 2%nat |} ]).
    + vm_compute. reflexivity.
    + reflexivity.
    + intros c' Hc'. inversion Hc'.
    + vm_compute. split; congruence.
  - destruct (shard_resolution overlapping_shards (document "t"))
      as (_ & _ & Hres & _); [vm_compute; done|].
    rewrite (Hres [ {| startIndex := 0; endIndex := 7; client := 1%nat |} ]
               {| startIndex := 3; endIndex := 11; client := 2%nat |} []).
    + vm_compute. reflexivity.
    + reflexivity.
    + intros c' Hc'. apply list_elem_of_singleton in Hc' as ->.
      vm_compute. intros [H1 H2]. congruence.
    + vm_compute. split; congruence.
  - destruct (shard_resolution overlapping_shards (document "u42"))
      as (_ & _ & _ & Hnone); [vm_compute; done|].
    apply Hnone. intros c Hc. unfold covers.
    repeat (apply elem_of_cons in Hc as [->|Hc]; [vm_compute; intros [H1 H2]; congruence|]).
    inversion Hc.
Defined.

(** The claim of C6 as it is written fails for a sharding count that does
    not fit 32 bits: [uint32(shardingCount)] keeps the low 32 bits only.
    With [N = 2^32 + 1] every key lands on index 0, while
    [CRC32-IEEE("a") mod N] is the checksum itself. *)
Lemma shard_index_truncates :
  0 < 2 ^ 32 + 1 /\
  getTableIndex "a" (2 ^ 32 + 1) = Ok 0 /\
  Crc32.ChecksumIEEE (Crc32.bytes_of_string "a") mod (2 ^ 32 + 1) = 0xe8b7be43 /\
  getTableIndex "a" (2 ^ 32 + 1)
    <> Ok (Crc32.ChecksumIEEE (Crc32.bytes_of_string "a") mod (2 ^ 32 + 1)).
Proof. vm_compute. repeat split; congruence. Qed.

End DbFacts.

(** ** Value records: expiry *)
Module ValueFacts.
Import Go Storage.








End ValueFacts.

(** ** The single-key document upsert *)
Module UpsertFacts.
Import Go Db Storage.

(** [k] attempts in a row, from attempt [i] on, that each end in a missed
    compare-and-set ([errNoRowsUpdated]), leading from [s] to [s']. *)
Inductive conflicts (envs : nat -> store -> store) (db : DBCluster)
    (now : nat -> Time) (hashTag key : string) (value : RedisValue)
    : nat -> nat -> pg roomDataModelV2 -> pg roomDataModelV2 -> Prop :=
| conflicts_none i s : conflicts envs db now hashTag key value i 0 s s
| conflicts_more i k s s1 s' :
    _upsertRoomData (envs i) db (now i) hashTag key value s
      = (s1, Err errNoRowsUpdated) ->
    conflicts envs db now hashTag key value (S i) k s1 s' ->
    conflicts envs db now hashTag key value i (S k) s s'.

(** The resolution of a document depends on its hash tag only. *)
Lemma resolve_document (db : DBCluster) (model : roomDataModelV2) :
  GetTableNameAndDBClientByModel db model
  = GetTableNameAndDBClientByModel db (newRoomDataModelV2 (HashTag model)).
Proof. reflexivity. Qed.

Lemma table_set_table {R} (s : pg R) (client : pgDB) (name : string)
    (t : gmap string R) (st : stmt) :
  table (set_table s client name t st) client name = t.
Proof. unfold table, set_table. simpl. by rewrite lookup_insert_eq. Qed.

Lemma table_interfere {R} (env : gmap (pgDB * string) (gmap string R) -> _)
    (s : pg R) (st : stmt) (client : pgDB) (name : string) :
  table (interfere env (logged s st)) client name = table (interfere env s) client name.
Proof. reflexivity. Qed.

Section OneDocument.

Variable db : DBCluster.
Variables hashTag key : string.
Variable value : RedisValue.
Variable tableName : string.
Variable client : pgDB.

Hypothesis value_not_zero : IsZero value = false.
Hypothesis resolved :
  GetTableNameAndDBClientByModel db (newRoomDataModelV2 hashTag) = Ok (tableName, client).

(** The row is absent when the call selects it and still absent when it
    inserts: the document is created with the key alone, at version 0. *)
Lemma upsert_absent (env : store -> store) (now : Time) (s : pg roomDataModelV2) :
  table s client tableName !! hashTag = None ->
  table (interfere env s) client tableName !! hashTag = None ->
  exists s',
    _upsertRoomData env db now hashTag key value s = (s', Ok ()) /\
    table s' client tableName !! hashTag
      = Some {| HashTag := hashTag; Value := {[ key := value ]};
                DeletedAt := zeroTime; CreatedAt := now; UpdatedAt := now;
                Version := 0 |}.
Proof.
  intros Habs Habs'. unfold _upsertRoomData.
  rewrite value_not_zero, resolved. unfold Select. rewrite Habs.
  rewrite resolve_document. simpl HashTag. rewrite resolved.
  unfold Insert. rewrite table_interfere, Habs'.
  eexists. split; [reflexivity|].
  rewrite table_set_table. by rewrite lookup_insert_eq.
Qed.

(** The row is there, and its version at the update is the one selected:
    the key is set inside the value map and the version goes up by one. *)
Lemma upsert_present (env : store -> store) (now : Time) (s : pg roomDataModelV2)
    (row row' : roomDataModelV2) :
  table s client tableName !! hashTag = Some row ->
  table (interfere env s) client tableName !! hashTag = Some row' ->
  Version row' = Version row ->
  exists s',
    _upsertRoomData env db now hashTag key value s = (s', Ok ()) /\
    table s' client tableName !! hashTag
      = Some {| HashTag := HashTag row'; Value := <[ key := value ]> (Value row');
                DeletedAt := DeletedAt row'; CreatedAt := CreatedAt row';
                UpdatedAt := now; Version := int64 (Version row + 1) |}.
Proof.
  intros Hrow Hrow' Hv. unfold _upsertRoomData.
  rewrite value_not_zero, resolved. unfold Select. rewrite Hrow.
  unfold Update. rewrite table_interfere, Hrow'.
  rewrite Hv, Z.eqb_refl. simpl.
  eexists. split; [reflexivity|].
  rewrite table_set_table. by rewrite lookup_insert_eq.
Qed.

(** The row is there, but at the update it is gone or has another version:
    no row is affected, nothing is written, and the call signals the
    retryable [errNoRowsUpdated]. *)
Lemma upsert_conflict (env : store -> store) (now : Time) (s : pg roomDataModelV2)
    (row : roomDataModelV2) :
  table s client tableName !! hashTag = Some row ->
  match table (interfere env s) client tableName !! hashTag with
  | Some row' => Version row' <> Version row
  | None => True
  end ->
  exists s',
    _upsertRoomData env db now hashTag key value s = (s', Err errNoRowsUpdated) /\
    tables s' = env (tables s).
Proof.
  intros Hrow Hmiss. unfold _upsertRoomData.
  rewrite value_not_zero, resolved. unfold Select. rewrite Hrow.
  unfold Update. rewrite table_interfere.
  destruct (table (interfere env s) client tableName !! hashTag) as [row'|] eqn:E.
  - destruct (Version row' =? Version row) eqn:Ev; [lia|]. simpl.
    eexists. split; reflexivity.
  - simpl. eexists. split; reflexivity.
Qed.

End OneDocument.

(** After [k] missed attempts out of [remaining > k], a successful attempt
    ends the loop with success. *)
Lemma loop_retries envs db now hashTag key value :
  forall k i remaining err s sk s',
    conflicts envs db now hashTag key value i k s sk ->
    (k < remaining)%nat ->
    _upsertRoomData (envs (i + k)%nat) db (now (i + k)%nat) hashTag key value sk
      = (s', Ok ()) ->
    upsertRoomData_loop envs db now hashTag key value i remaining err s = (s', Ok ()).
Proof.
  induction k as [|k IH]; intros i remaining err s sk s' Hc Hlt Hok.
  - inversion Hc; subst. destruct remaining as [|r]; [lia|]. simpl.
    rewrite Nat.add_0_r in Hok. rewrite Hok. reflexivity.
  - inversion Hc as [|i' k' s0 s1 s0' Hfirst Hrest]; subst.
    destruct remaining as [|r]; [lia|]. simpl. rewrite Hfirst. simpl.
    apply (IH (S i) r _ s1 sk s'); [done | lia |].
    replace (S i + k)%nat with (i + S k)%nat by lia. exact Hok.
Qed.

(** After as many missed attempts as there are tries, the loop gives up with
    the last error. *)
Lemma loop_gives_up envs db now hashTag key value :
  forall k i err s sk,
    conflicts envs db now hashTag key value i (S k) s sk ->
    upsertRoomData_loop envs db now hashTag key value i (S k) err s
      = (sk, Err errNoRowsUpdated).
Proof.
  induction k as [|k IH]; intros i err s sk Hc.
  - inversion Hc as [|i' k' s0 s1 s0' Hfirst Hrest]; subst.
    inversion Hrest; subst. simpl. rewrite Hfirst. reflexivity.
  - inversion Hc as [|i' k' s0 s1 s0' Hfirst Hrest]; subst.
    remember (S k) as r eqn:Hr. simpl. rewrite Hfirst. simpl. subst r.
    apply IH. exact Hrest.
Qed.

(** C2, as the code has it.  For a value record that is not the zero
    sentinel and a hash tag whose shard resolves: when the document row is
    absent a row is inserted with version 0 and the value map holding the
    key alone; when the row is there the key is set inside its value map and
    the version becomes the selected one plus one, under the guard that the
    version is still the selected one; when the guarded update affects no
    row the attempt ends in the retryable [errNoRowsUpdated]; the loop tries
    again after such an attempt, and after [tryTimes] of them it gives up. *)
Theorem single_key_upsert (db : DBCluster) (hashTag key : string) (value : RedisValue)
    (tableName : string) (client : pgDB) :
  IsZero value = false ->
  GetTableNameAndDBClientByModel db (newRoomDataModelV2 hashTag) = Ok (tableName, client) ->
  (forall env now s,
     table s client tableName !! hashTag = None ->
     table (interfere env s) client tableName !! hashTag = None ->
     exists s',
       _upsertRoomData env db now hashTag key value s = (s', Ok ()) /\
       table s' client tableName !! hashTag
         = Some {| HashTag := hashTag; Value := {[ key := value ]};
                   DeletedAt := zeroTime; CreatedAt := now; UpdatedAt := now;
                   Version := 0 |}) /\
  (forall env now s row row',
     table s client tableName !! hashTag = Some row ->
     table (interfere env s) client tableName !! hashTag = Some row' ->
     Version row' = Version row ->
     exists s',
       _upsertRoomData env db now hashTag key value s = (s', Ok ()) /\
       table s' client tableName !! hashTag
         = Some {| HashTag := HashTag row'; Value := <[ key := value ]> (Value row');
                   DeletedAt := DeletedAt row'; CreatedAt := CreatedAt row';
                   UpdatedAt := now; Version := int64 (Version row + 1) |}) /\
  (forall env now s row,
     table s client tableName !! hashTag = Some row ->
     match table (interfere env s) client tableName !! hashTag with
     | Some row' => Version row' <> Version row
     | None => True
     end ->
     exists s',
       _upsertRoomData env db now hashTag key value s = (s', Err errNoRowsUpdated) /\
       tables s' = env (tables s) /\
       isRetryErrorForUpdateInTx errNoRowsUpdated = true) /\
  (forall envs now tryTimes k s sk s',
     conflicts envs db now hashTag key value 0 k s sk ->
     Z.of_nat k < tryTimes ->
     _upsertRoomData (envs k) db (now k) hashTag key value sk = (s', Ok ()) ->
     upsertRoomData envs db now hashTag key value tryTimes s = (s', Ok ())) /\
  (forall envs now tryTimes s sk,
     0 < tryTimes ->
     conflicts envs db now hashTag key value 0 (Z.to_nat tryTimes) s sk ->
     upsertRoomData envs db now hashTag key value tryTimes s
       = (sk, Err errNoRowsUpdated)).
Proof.
  intros Hnz Hres. repeat split.
  - intros env now s. by apply upsert_absent.
  - intros env now s row row'. by apply upsert_present.
  - intros env now s row Hrow Hmiss.
    destruct (upsert_conflict db hashTag key value tableName client Hnz Hres
                env now s row Hrow Hmiss) as (s' & Hr & Ht).
    exists s'. done.
  - intros envs now tryTimes k s sk s' Hc Hlt Hok. unfold upsertRoomData.
    apply (loop_retries envs db now hashTag key value k 0 _ _ s sk s'); [done | lia | done].
  - intros envs now tryTimes s sk Hpos Hc. unfold upsertRoomData.
    destruct (Z.to_nat tryTimes) as [|k] eqn:E; [lia|].
    by apply loop_gives_up.
Qed.

(** A document store with nothing in it. *)
Definition empty_pg : pg roomDataModelV2 := {| tables := ∅; log := [] |}.

(** Another connection bumps the version of document ["t"]. *)
Definition bump (t : store) : store :=
  alter (alter (λ row, {| HashTag := HashTag row; Value := Value row;
                          DeletedAt := DeletedAt row; CreatedAt := CreatedAt row;
                          UpdatedAt := UpdatedAt row; Version := Version row + 1 |})
               "t") (2%nat, "room_data_v2_8") t.

Definition name_value : RedisValue :=
  {| Type_ := "string"; Value_ := "alice"; SyncedTs := 0; ExpireTs := 0 |}.

(** The state after the first upsert of ["{t}:name"] into the empty store. *)
Definition created : pg roomDataModelV2 :=
  (_upsertRoomData id DbFacts.two_shards 5 "t" "{t}:name" name_value empty_pg).1.

(** On the 16-shard cluster, hash tag ["t"]: the first upsert creates the
    document at version 0; a second one of another key raises it to version
    1 with both keys; with another connection that changes the version
    between every SELECT and UPDATE, two tries end in [errNoRowsUpdated]; if
    that connection interferes with the first attempt only, the second
    attempt succeeds. *)
Lemma single_key_upsert_witness :
  (table created 2%nat "room_data_v2_8" !! "t"
     = Some {| HashTag := "t"; Value := {[ "{t}:name" := name_value ]};
               DeletedAt := zeroTime; CreatedAt := 5; UpdatedAt := 5; Version := 0 |}) /\
  (exists s', _upsertRoomData id DbFacts.two_shards 9 "t" "{t}:age" name_value created
                = (s', Ok ()) /\
              Version <$> (table s' 2%nat "room_data_v2_8" !! "t") = Some 1) /\
  (exists s', upsertRoomData (λ _, bump) DbFacts.two_shards (λ _, 9) "t" "{t}:age"
                name_value 2 created = (s', Err errNoRowsUpdated)) /\
  (exists s', upsertRoomData (λ i, if i is O then bump else id) DbFacts.two_shards
                (λ _, 9) "t" "{t}:age" name_value 2 created = (s', Ok ())).
Proof.
  pose proof (single_key_upsert DbFacts.two_shards "t") as Hthm.
  assert (Hres : GetTableNameAndDBClientByModel DbFacts.two_shards
                   (newRoomDataModelV2 "t") = Ok ("room_data_v2_8", 2%nat))
    by (vm_compute; reflexivity).
  split; [|split; [|split]].
  - destruct (Hthm "{t}:name" name_value _ _ eq_refl Hres) as (Ha & _).
    destruct (Ha id 5 empty_pg) as (s' & Hrun & Hrow); [reflexivity | reflexivity |].
    unfold created. rewrite Hrun. exact Hrow.
  - destruct (Hthm "{t}:age" name_value _ _ eq_refl Hres) as (_ & Hb & _).
    destruct (Hb id 9 created
                {| HashTag := "t"; Value := {[ "{t}:name" := name_value ]};
                   DeletedAt := zeroTime; CreatedAt := 5; UpdatedAt := 5; Version := 0 |}
                {| HashTag := "t"; Value := {[ "{t}:name" := name_value ]};
                   DeletedAt := zeroTime; CreatedAt := 5; UpdatedAt := 5; Version := 0 |})
      as (s' & Hrun & Hrow); [vm_compute; reflexivity | vm_compute; reflexivity | reflexivity |].
    exists s'. split; [exact Hrun|]. rewrite Hrow. vm_compute. reflexivity.
  - destruct (Hthm "{t}:age" name_value _ _ eq_refl Hres) as (_ & _ & _ & _ & He).
    eexists. apply He; [lia|].
    change (Z.to_nat 2) with 2%nat.
    eapply conflicts_more; [vm_compute; reflexivity|].
    eapply conflicts_more; [vm_compute; reflexivity|].
    apply conflicts_none.
  - destruct (Hthm "{t}:age" name_value _ _ eq_refl Hres) as (_ & _ & _ & Hd & _).
    eexists. eapply (Hd _ _ 2 1%nat); [|lia|].
    + eapply conflicts_more; [vm_compute; reflexivity|]. apply conflicts_none.
    + vm_compute. reflexivity.
Defined.

Definition zero_value : RedisValue :=
  {| Type_ := ""; Value_ := ""; SyncedTs := 0; ExpireTs := 0 |}.

(** The claim of C2 as it is written fails for the zero sentinel: the row of
    ["t"] is absent, the call returns success, and no row is inserted. *)
Lemma zero_value_not_inserted :
  table empty_pg 2%nat "room_data_v2_8" !! "t" = None /\
  (_upsertRoomData id DbFacts.two_shards 5 "t" "{t}:name" zero_value empty_pg).2 = Ok () /\
  table (_upsertRoomData id DbFacts.two_shards 5 "t" "{t}:name" zero_value empty_pg).1
        2%nat "room_data_v2_8" !! "t" = None.
Proof. vm_compute. done. Qed.

(** C10.  Upserting a zero-sentinel value record (empty kind tag) returns
    success and leaves the database as it is: no statement is sent, neither a
    read nor a write, and every table is unchanged; so does the retry loop
    around it, for every try count. *)
Theorem zero_value_upsert_is_noop (env : store -> store) (envs : nat -> store -> store)
    (db : DBCluster) (now : Time) (nows : nat -> Time) (hashTag key : string)
    (value : RedisValue) (tryTimes : Z) (s : pg roomDataModelV2) :
  Type_ value = "" ->
  _upsertRoomData env db now hashTag key value s = (s, Ok ()) /\
  upsertRoomData envs db nows hashTag key value tryTimes s = (s, Ok ()) /\
  log (_upsertRoomData env db now hashTag key value s).1 = log s /\
  tables (_upsertRoomData env db now hashTag key value s).1 = tables s.
Proof.
  intros Hty.
  assert (Hz : IsZero value = true) by (unfold IsZero; by rewrite bool_decide_eq_true).
  assert (Hone : forall e n, _upsertRoomData e db n hashTag key value s = (s, Ok ()))
    by (intros e n; unfold _upsertRoomData; by rewrite Hz).
  split; [apply Hone|]. split.
  - unfold upsertRoomData. destruct (Z.to_nat tryTimes) as [|k]; [reflexivity|].
    simpl. rewrite Hone. reflexivity.
  - rewrite Hone. done.
Qed.

Lemma zero_value_upsert_is_noop_witness :
  _upsertRoomData bump DbFacts.two_shards 9 "t" "{t}:name" zero_value created
    = (created, Ok ()) /\
  upsertRoomData (λ _, bump) DbFacts.two_shards (λ _, 9) "t" "{t}:name" zero_value 3 created
    = (created, Ok ()).
Proof.
  destruct (zero_value_upsert_is_noop bump (λ _, bump) DbFacts.two_shards 9 (λ _, 9)
              "t" "{t}:name" zero_value 3 created eq_refl) as (H1 & H2 & _).
  split; [exact H1 | exact H2].
Defined.

End UpsertFacts.

(** ** The bulk upserts of access and write records *)
Module BulkFacts.
Import Go Db Storage.

(** What the two record types have in common: [SET ts = EXCLUDED.ts] is an
    update of the timestamp column alone, and the table prefix is a constant
    of the type. *)
Class TsRecordOk (R : Type) `{Model R} `{TsRecord R} : Prop := {
  ts_set_ts : forall t r, ts (set_ts t r) = t;
  pk_set_ts : forall t r, pk (set_ts t r) = pk r;
  one_prefix : forall m m' : R, GetTablePrefix m = GetTablePrefix m'
}.

Global Instance roomWrittenRecordModel_ok : TsRecordOk roomWrittenRecordModel.
Proof. split; reflexivity. Qed.

Global Instance roomAccessedRecordModelV2_ok : TsRecordOk roomAccessedRecordModelV2.
Proof. split; reflexivity. Qed.

(** The row stored under a key after one proposed row has met it. *)
Definition upserted {R} `{TsRecord R} (existing : option R) (row : R) : R :=
  match existing with
  | None => row
  | Some old => if ts old <? ts row then set_ts (ts row) old else old
  end.

Section Statement.
Context {R : Type} `{TsRecordOk R}.

Lemma upserted_ts (existing : option R) (row : R) :
  ts (upserted existing row)
  = match existing with
    | None => ts row
    | Some old => Z.max (ts old) (ts row)
    end.
Proof.
  unfold upserted. destruct existing as [old|]; [|reflexivity].
  destruct (ts old <? ts row) eqn:E; [rewrite ts_set_ts|]; lia.
Qed.

Lemma upserted_again (existing : option R) (row : R) :
  upserted (Some (upserted existing row)) row = upserted existing row.
Proof.
  unfold upserted at 1.
  pose proof (upserted_ts existing row) as Hts.
  destruct (ts (upserted existing row) <? ts row) eqn:E; [|reflexivity].
  destruct existing; lia.
Qed.

(** One statement over rows with distinct keys, none of them touched before:
    it succeeds, every proposed row is upserted, other rows are as before. *)
Lemma onConflictUpdate_distinct (rows : list R) :
  forall (touched : gset string) (t : gmap string R),
    NoDup (pk <$> rows) ->
    (forall row, row ∈ rows -> pk row ∉ touched) ->
    exists t',
      onConflictUpdate rows touched t = Ok t' /\
      (forall row, row ∈ rows -> t' !! pk row = Some (upserted (t !! pk row) row)) /\
      (forall k, k ∉ pk <$> rows -> t' !! k = t !! k).
Proof.
  induction rows as [|row rest IH]; intros touched t Hnd Hfresh.
  - exists t. split; [reflexivity|]. split; [|done]. intros row Hrow. inversion Hrow.
  - apply NoDup_cons in Hnd as [Hnotin Hnd]. simpl onConflictUpdate.
    assert (Hother : forall r, r ∈ rest -> pk r ≠ pk row).
    { intros r Hr Heq. apply Hnotin. rewrite <- Heq. apply list_elem_of_fmap. eauto. }
    assert (Hrow_fresh : pk row ∉ touched) by (apply Hfresh; left).
    assert (Hstep : forall touched' t1,
              (touched' = touched \/ touched' = {[ pk row ]} ∪ touched) ->
              t1 !! pk row = Some (upserted (t !! pk row) row) ->
              (forall k, k ≠ pk row -> t1 !! k = t !! k) ->
              exists t',
                onConflictUpdate rest touched' t1 = Ok t' /\
                (forall r, r ∈ row :: rest -> t' !! pk r = Some (upserted (t !! pk r) r)) /\
                (forall k, k ∉ pk <$> row :: rest -> t' !! k = t !! k)).
    { intros touched' t1 Htouched Hat Hframe.
      destruct (IH touched' t1 Hnd) as (t' & Hrun & Hin & Hout).
      { intros r Hr Hin. destruct Htouched as [->| ->].
        - apply (Hfresh r); [by right | done].
        - apply elem_of_union in Hin as [Hin|Hin].
          + apply elem_of_singleton in Hin. by apply (Hother r).
          + apply (Hfresh r); [by right | done]. }
      exists t'. split; [exact Hrun|]. split.
      - intros r Hr. apply elem_of_cons in Hr as [->|Hr].
        + rewrite Hout by done. exact Hat.
        + rewrite Hin by done. rewrite Hframe by (by apply Hother). reflexivity.
      - intros k Hk. rewrite fmap_cons in Hk. apply not_elem_of_cons in Hk as [Hk1 Hk2].
        rewrite Hout by done. by apply Hframe. }
    destruct (t !! pk row) as [old|] eqn:Hold.
    + rewrite bool_decide_eq_false_2 by done.
      destruct (ts old <? ts row) eqn:Enew.
      * apply Hstep; [by right | |].
        -- rewrite lookup_insert_eq. simpl. by rewrite Enew.
        -- intros k Hk. by rewrite lookup_insert_ne.
      * apply Hstep; [by left | |].
        -- rewrite Hold. simpl. by rewrite Enew.
        -- done.
    + apply Hstep; [by right | |].
      * by rewrite lookup_insert_eq.
      * intros k Hk. by rewrite lookup_insert_ne.
Qed.

(** Run again on its own result, the statement changes nothing. *)
Lemma onConflictUpdate_again (rows : list R) (t t' : gmap string R) :
  NoDup (pk <$> rows) ->
  onConflictUpdate rows ∅ t = Ok t' ->
  onConflictUpdate rows ∅ t' = Ok t'.
Proof.
  intros Hnd Hrun.
  destruct (onConflictUpdate_distinct rows ∅ t Hnd) as (t1 & Hrun1 & Hin1 & Hout1);
    [set_solver|].
  rewrite Hrun in Hrun1. injection Hrun1 as <-.
  destruct (onConflictUpdate_distinct rows ∅ t' Hnd) as (t2 & Hrun2 & Hin2 & Hout2);
    [set_solver|].
  rewrite Hrun2. f_equal. apply map_eq. intros k.
  destruct (decide (k ∈ pk <$> rows)) as [Hk|Hk].
  - apply list_elem_of_fmap in Hk as (row & -> & Hrow).
    rewrite Hin2, Hin1 by done. by rewrite upserted_again.
  - by apply Hout2.
Qed.

End Statement.

Section Grouping.
Context {R : Type} `{TsRecordOk R}.
Variable db : DBCluster.

(** The table a model goes to, when its shard resolves. *)
Definition table_of (m : R) : option string :=
  match GetTableNameAndDBClientByModel db m with
  | Ok (n, _) => Some n
  | _ => None
  end.

Definition client_of (m : R) : pgDB :=
  match GetTableNameAndDBClientByModel db m with
  | Ok (_, c) => c
  | _ => 0%nat
  end.

(** The map [clusterModelsMap] after the models [seen]: under each table
    name, the models that go to that table, in their order, with the client
    of the first of them. *)
Definition grouped (seen : list R) (acc : gmap string (clusterModel R)) : Prop :=
  forall n,
    acc !! n = match filter (λ m, table_of m = Some n) seen with
               | [] => None
               | m0 :: l => Some {| tableName := n; client_ := client_of m0;
                                    models := m0 :: l |}
               end.

Lemma groupModels_grouped (ms : list R) :
  forall (seen : list R) (acc : gmap string (clusterModel R)),
    grouped seen acc ->
    (forall m, m ∈ ms -> is_Some (table_of m)) ->
    exists gm, groupModels db ms acc = Ok gm /\ grouped (seen ++ ms) gm.
Proof.
  induction ms as [|m rest IH]; intros seen acc Hacc Hres.
  - exists acc. split; [reflexivity|]. by rewrite app_nil_r.
  - simpl groupModels.
    destruct (Hres m) as [n Hn]; [left|].
    assert (Hcl : GetTableNameAndDBClientByModel db m = Ok (n, client_of m)).
    { unfold table_of in Hn. unfold client_of.
      destruct (GetTableNameAndDBClientByModel db m) as [[n' c]| |]; [|done..].
      by injection Hn as ->. }
    rewrite Hcl.
    assert (Hnext : forall acc', grouped (seen ++ [m]) acc' ->
              exists gm, groupModels db rest acc' = Ok gm /\ grouped (seen ++ m :: rest) gm).
    { intros acc' Hacc'. destruct (IH (seen ++ [m]) acc' Hacc') as (gm & Hrun & Hgm).
      - intros m' Hm'. apply Hres. by right.
      - exists gm. split; [exact Hrun|]. by rewrite <- app_assoc in Hgm. }
    pose proof (Hacc n) as Hat.
    destruct (acc !! n) as [origin|] eqn:Horigin.
    + apply Hnext. intros n'. rewrite filter_app.
      destruct (decide (n' = n)) as [->|Hne].
      * rewrite lookup_insert_eq.
        rewrite (filter_cons_True _ m []) by done. rewrite filter_nil.
        destruct (filter (λ m0, table_of m0 = Some n) seen) as [|m0 l]; [done|].
        injection Hat as ->. reflexivity.
      * rewrite lookup_insert_ne by done.
        rewrite (filter_cons_False _ m []) by congruence.
        rewrite filter_nil, app_nil_r. apply Hacc.
    + apply Hnext. intros n'. rewrite filter_app.
      destruct (decide (n' = n)) as [->|Hne].
      * rewrite lookup_insert_eq.
        rewrite (filter_cons_True _ m []) by done. rewrite filter_nil.
        destruct (filter (λ m0, table_of m0 = Some n) seen) as [|m0 l]; [|done].
        reflexivity.
      * rewrite lookup_insert_ne by done.
        rewrite (filter_cons_False _ m []) by congruence.
        rewrite filter_nil, app_nil_r. apply Hacc.
Qed.

(** Two models that go to the table of one name are served by one client. *)
Lemma same_table_same_client (m m' : R) (n : string) (c c' : pgDB) :
  GetTableNameAndDBClientByModel db m = Ok (n, c) ->
  GetTableNameAndDBClientByModel db m' = Ok (n, c') ->
  c = c'.
Proof.
  unfold GetTableNameAndDBClientByModel. rewrite (one_prefix m m').
  destruct (getTableIndex (ShardingKey m) (shardingCount db)) as [i| |]; simpl; [|done..].
  destruct (getTableIndex (ShardingKey m') (shardingCount db)) as [i'| |]; simpl; [|done..].
  destruct (getClientByIndex db i) as [h|] eqn:Hh; [|done].
  destruct (getClientByIndex db i') as [h'|] eqn:Hh'; [|done].
  intros [= <- <-] [= Hname <-]. unfold table_name in Hname.
  apply (inj (String.app _)) in Hname. apply (inj (String.app _)) in Hname.
  apply (inj pretty) in Hname. subst i'. congruence.
Qed.

End Grouping.

Section Clusters.
Context {R : Type} `{TsRecordOk R}.

Definition place (g : clusterModel R) : pgDB * string := (client_ g, tableName g).

Lemma InsertOnConflict_tables (s : pg R) (g : clusterModel R) :
  tables (InsertOnConflict s (client_ g) (tableName g) (models g)).1
  = match onConflictUpdate (models g) ∅ (table s (client_ g) (tableName g)) with
    | Ok t => <[ place g := t ]> (tables s)
    | _ => tables s
    end.
Proof.
  unfold InsertOnConflict.
  destruct (onConflictUpdate (models g) ∅ (table s (client_ g) (tableName g))); done.
Qed.

(** The statements leave every other table alone. *)
Lemma upsertClusters_frame (cms : list (clusterModel R)) :
  forall (s : pg R) (key : pgDB * string),
    key ∉ place <$> cms ->
    tables (upsertClusters cms s).1 !! key = tables s !! key.
Proof.
  induction cms as [|g rest IH]; intros s key Hkey; [reflexivity|].
  rewrite fmap_cons in Hkey. apply not_elem_of_cons in Hkey as [Hg Hrest].
  simpl upsertClusters.
  pose proof (InsertOnConflict_tables s g) as Hone.
  destruct (InsertOnConflict s (client_ g) (tableName g) (models g)) as [s1 [[]|e|m]];
    simpl in Hone.
  - rewrite IH by done. rewrite Hone.
    destruct (onConflictUpdate (models g) ∅ (table s (client_ g) (tableName g)));
      [by rewrite lookup_insert_ne | done | done].
  - simpl. rewrite Hone.
    destruct (onConflictUpdate (models g) ∅ (table s (client_ g) (tableName g)));
      [by rewrite lookup_insert_ne | done | done].
  - simpl. rewrite Hone.
    destruct (onConflictUpdate (models g) ∅ (table s (client_ g) (tableName g)));
      [by rewrite lookup_insert_ne | done | done].
Qed.

(** Groups of distinct tables, each with distinct keys: every statement
    succeeds, and each table ends as its statement leaves it. *)
Lemma upsertClusters_distinct (cms : list (clusterModel R)) :
  forall (s : pg R),
    NoDup (place <$> cms) ->
    (forall g, g ∈ cms -> NoDup (pk <$> models g)) ->
    exists s',
      upsertClusters cms s = (s', Ok ()) /\
      forall g, g ∈ cms ->
        exists t',
          onConflictUpdate (models g) ∅ (table s (client_ g) (tableName g)) = Ok t' /\
          tables s' !! place g = Some t'.
Proof.
  induction cms as [|g rest IH]; intros s Hnd Hkeys.
  - exists s. split; [reflexivity|]. intros g Hg. inversion Hg.
  - rewrite fmap_cons in Hnd. apply NoDup_cons in Hnd as [Hfirst Hnd].
    destruct (onConflictUpdate_distinct (models g) ∅
                (table s (client_ g) (tableName g))) as (t1 & Hrun1 & _).
    { apply Hkeys. left. }
    { set_solver. }
    simpl upsertClusters. unfold InsertOnConflict. rewrite Hrun1.
    set (s1 := set_table s (client_ g) (tableName g) t1 (INSERT (client_ g) (tableName g))).
    destruct (IH s1 Hnd) as (s' & Hrun & Hall).
    { intros g' Hg'. apply Hkeys. by right. }
    exists s'. split; [exact Hrun|].
    intros g' Hg'. apply elem_of_cons in Hg' as [->|Hg'].
    + exists t1. split; [exact Hrun1|].
      replace s' with (upsertClusters rest s1).1 by (by rewrite Hrun).
      rewrite upsertClusters_frame by done.
      subst s1. unfold set_table, place. simpl. by rewrite lookup_insert_eq.
    + destruct (Hall g' Hg') as (t' & Ht' & Hat). exists t'. split; [|exact Hat].
      rewrite <- Ht'. f_equal. subst s1. unfold table, set_table. simpl.
      rewrite lookup_insert_ne; [reflexivity|].
      intros Heq. apply Hfirst. change (client_ g, tableName g) with (place g) in Heq.
      rewrite Heq. apply list_elem_of_fmap. eauto.
Qed.

(** When every statement is without effect on the tables as they are, so is
    the loop. *)
Lemma upsertClusters_fixed (cms : list (clusterModel R)) :
  forall (s : pg R),
    (forall g, g ∈ cms ->
       exists t', tables s !! place g = Some t' /\
                  onConflictUpdate (models g) ∅ t' = Ok t') ->
    exists s', upsertClusters cms s = (s', Ok ()) /\ tables s' = tables s.
Proof.
  induction cms as [|g rest IH]; intros s Hfix.
  - exists s. done.
  - destruct (Hfix g) as (t' & Hat & Hrun); [left|].
    simpl upsertClusters. unfold InsertOnConflict, table. unfold place in Hat.
    rewrite Hat. simpl default. rewrite Hrun.
    set (s1 := set_table s (client_ g) (tableName g) t' (INSERT (client_ g) (tableName g))).
    assert (Hsame : tables s1 = tables s).
    { subst s1. unfold set_table. simpl. by apply insert_id. }
    destruct (IH s1) as (s' & Hrun' & Htables).
    { intros g' Hg'. rewrite Hsame. apply Hfix. by right. }
    exists s'. split; [exact Hrun'|]. by rewrite Htables.
Qed.

End Clusters.

(** The max-wins upsert of a batch of records with one record per key whose
    shards all resolve: it succeeds; each record of the batch is stored, new
    when its key was absent, else with the later of the stored and the
    incoming timestamp (a strictly newer incoming timestamp replaces the
    stored one, a stale or equal one leaves the row as it was); and applying
    the batch again changes no table. *)
Definition max_wins {R} `{Model R} `{TsRecord R}
    (upsert : (list (clusterModel R) -> list (clusterModel R)) ->
              DBCluster -> list R -> pg R -> pg R * outcome unit) : Prop :=
  forall order order' db (ms : list R) (s : pg R),
    (forall l, order l ≡ₚ l) -> (forall l, order' l ≡ₚ l) ->
    NoDup (pk <$> ms) ->
    (forall m, m ∈ ms -> exists n c, GetTableNameAndDBClientByModel db m = Ok (n, c)) ->
    exists s',
      upsert order db ms s = (s', Ok ()) /\
      (forall m n c,
         m ∈ ms -> GetTableNameAndDBClientByModel db m = Ok (n, c) ->
         exists stored,
           table s' c n !! pk m = Some stored /\
           match table s c n !! pk m with
           | None => stored = m
           | Some existing =>
               ts stored = Z.max (ts existing) (ts m) /\
               (ts existing < ts m -> stored = set_ts (ts m) existing) /\
               (ts m <= ts existing -> stored = existing)
           end) /\
      (exists s'', upsert order' db ms s' = (s'', Ok ()) /\ tables s'' = tables s').

Section Bulk.
Context {R : Type} `{TsRecordOk R}.

Lemma names_of_entries (l : list (string * clusterModel R)) :
  Forall (λ p, tableName p.2 = p.1) l -> tableName <$> l.*2 = l.*1.
Proof.
  induction 1 as [|[n g] l Hp _ IH]; [done|].
  rewrite !fmap_cons. cbn [fst snd] in *. by rewrite Hp, IH.
Qed.

Lemma bulkUpsert_max_wins : max_wins (bulkUpsert (R := R)).
Proof.
  intros order order' db ms s Horder Horder' Hnd Hres.
  assert (Hsome : forall m, m ∈ ms -> is_Some (table_of db m)).
  { intros m Hm. destruct (Hres m Hm) as (n & c & Hr). unfold table_of. rewrite Hr. eauto. }
  destruct (groupModels_grouped db ms [] ∅) as (gm & Hgroup & Hgm); [done | done |].
  simpl in Hgm.
  (* what an entry of the map is *)
  assert (Hentry : forall n g, gm !! n = Some g ->
            tableName g = n /\
            models g = filter (λ m, table_of db m = Some n) ms /\
            exists m0, m0 ∈ models g /\ client_ g = client_of db m0).
  { intros n g Hg. rewrite (Hgm n) in Hg.
    destruct (filter (λ m, table_of db m = Some n) ms) as [|m0 l]; [done|].
    injection Hg as <-. simpl. split; [done|]. split; [done|].
    exists m0. split; [left | done]. }
  assert (Hmem : forall order0, (forall l, order0 l ≡ₚ l) ->
            forall g, g ∈ order0 (map_to_list gm).*2 <-> exists n, gm !! n = Some g).
  { intros order0 Hperm g. rewrite (Hperm _). rewrite list_elem_of_fmap. split.
    - intros ([n g'] & -> & Hin). exists n. by apply elem_of_map_to_list.
    - intros (n & Hg). exists (n, g). split; [done|]. by apply elem_of_map_to_list. }
  assert (Hplaces : forall order0, (forall l, order0 l ≡ₚ l) ->
            NoDup (place <$> order0 (map_to_list gm).*2)).
  { intros order0 Hperm. apply (NoDup_fmap_1 snd).
    rewrite <- list_fmap_compose.
    change (snd ∘ place) with (tableName (R := R)).
    rewrite (Hperm _). rewrite names_of_entries; [apply NoDup_fst_map_to_list|].
    apply Forall_forall. intros [n g] Hin. simpl.
    apply elem_of_map_to_list in Hin. by destruct (Hentry n g Hin). }
  assert (Hkeys : forall g n, gm !! n = Some g -> NoDup (pk <$> models g)).
  { intros g n Hg. destruct (Hentry n g Hg) as (_ & -> & _).
    eapply sublist_NoDup; [exact Hnd|]. apply fmap_sublist. apply sublist_filter. }
  assert (Hrun_groups : forall order0,
            getClusterModels order0 db ms = Ok (order0 (map_to_list gm).*2)).
  { intros order0. unfold getClusterModels. by rewrite Hgroup. }
  (* the first application *)
  destruct (upsertClusters_distinct (order (map_to_list gm).*2) s (Hplaces order Horder))
    as (s' & Hrun & Hall).
  { intros g Hg. apply (Hmem order Horder) in Hg as (n & Hg). by apply (Hkeys g n). }
  exists s'. split; [unfold bulkUpsert; by rewrite Hrun_groups|]. split.
  - intros m n c Hm Hr.
    assert (Hto : table_of db m = Some n) by (unfold table_of; by rewrite Hr).
    assert (Hin : m ∈ filter (λ m, table_of db m = Some n) ms)
      by (by apply list_elem_of_filter).
    pose proof (Hgm n) as Hg.
    destruct (filter (λ m, table_of db m = Some n) ms) as [|m0 l] eqn:Hfil;
      [inversion Hin|].
    assert (Hm0 : table_of db m0 = Some n).
    { assert (Hm0in : m0 ∈ filter (λ m, table_of db m = Some n) ms)
        by (rewrite Hfil; left).
      by apply list_elem_of_filter in Hm0in as [? _]. }
    assert (Hc : client_of db m0 = c).
    { unfold table_of in Hm0. unfold client_of.
      destruct (GetTableNameAndDBClientByModel db m0) as [[n0 c0]| |] eqn:Hr0; [|done..].
      injection Hm0 as ->. by apply (same_table_same_client db m0 m n). }
    rewrite Hc in Hg.
    destruct (Hall {| tableName := n; client_ := c; models := m0 :: l |})
      as (t' & Ht' & Hat).
    { apply (Hmem order Horder). by exists n. }
    unfold place in Hat. cbn [models client_ tableName] in Ht', Hat.
    destruct (onConflictUpdate_distinct (m0 :: l) ∅ (table s c n))
      as (t1 & Hrun1 & Hin1 & _).
    { rewrite <- Hfil. eapply sublist_NoDup; [exact Hnd|].
      apply fmap_sublist. apply sublist_filter. }
    { set_solver. }
    rewrite Hrun1 in Ht'. injection Ht' as ->.
    exists (upserted (table s c n !! pk m) m). split.
    + unfold table at 1. rewrite Hat. simpl. by apply Hin1.
    + pose proof (upserted_ts (table s c n !! pk m) m) as Hts.
      destruct (table s c n !! pk m) as [existing|]; [|reflexivity].
      split; [exact Hts|]. unfold upserted. split; intros Hcmp.
      * destruct (ts existing <? ts m) eqn:E; [reflexivity | lia].
      * destruct (ts existing <? ts m) eqn:E; [lia | reflexivity].
  - (* the second application *)
    destruct (upsertClusters_fixed (order' (map_to_list gm).*2) s') as (s'' & Hrun' & Hsame).
    { intros g Hg. apply (Hmem order' Horder') in Hg as (n & Hg).
      destruct (Hall g) as (t' & Ht' & Hat); [apply (Hmem order Horder); by exists n|].
      exists t'. split; [exact Hat|].
      apply (onConflictUpdate_again (models g) (table s (client_ g) (tableName g)));
        [by apply (Hkeys g n) | exact Ht']. }
    exists s''. split; [|exact Hsame]. unfold bulkUpsert. by rewrite Hrun_groups.
Qed.

End Bulk.

(** C3, as the code has it.  For both bulk upserts (written records by key,
    accessed records by hash tag) and every batch that holds one record per
    key and whose shards all resolve: the upsert succeeds, the stored
    timestamp after it is the later of the stored and the incoming one (a
    strictly newer incoming timestamp replaces the stored one, a stale or
    equal one leaves the row as it was), and applying the batch again
    changes nothing. *)
Theorem bulk_upsert_max_wins :
  max_wins bulkUpsertWrittenRecordModels /\
  max_wins bulkUpsertAccessedRecordModelsV2.
Proof. split; apply bulkUpsert_max_wins. Qed.

Definition written_at (key : string) (t : Time) : roomWrittenRecordModel :=
  {| Key := key; WrittenAt := t; W_CreatedAt := 1 |}.

(** Written records on the 16-shard cluster: ["{t}:k2"] written at 100 and
    ["{t}:name"] written at 60, both in table 5 of the first client. *)
Definition written_before : pg roomWrittenRecordModel :=
  {| tables := {[ (1%nat, "room_written_record_5") :=
                    {[ "{t}:k2" := written_at "{t}:k2" 100;
                       "{t}:name" := written_at "{t}:name" 60 ]} ]};
     log := [] |}.

Definition written_batch : list roomWrittenRecordModel :=
  [ written_at "{t}:k2" 200; written_at "{t}:name" 50; written_at "{u}:k" 70 ].

(** The batch brings a newer time for ["{t}:k2"], a stale one for
    ["{t}:name"], and a new key ["{u}:k"]: the first is replaced, the second
    stays, the third is inserted; a second application changes nothing. *)
Lemma bulk_upsert_max_wins_witness :
  exists s',
    bulkUpsertWrittenRecordModels id DbFacts.two_shards written_batch written_before
      = (s', Ok ()) /\
    WrittenAt <$> table s' 1%nat "room_written_record_5" !! "{t}:k2" = Some 200 /\
    WrittenAt <$> table s' 1%nat "room_written_record_5" !! "{t}:name" = Some 60 /\
    WrittenAt <$> table s' 1%nat "room_written_record_7" !! "{u}:k" = Some 70 /\
    exists s'',
      bulkUpsertWrittenRecordModels reverse DbFacts.two_shards written_batch s'
        = (s'', Ok ()) /\
      tables s'' = tables s'.
Proof.
  destruct bulk_upsert_max_wins as [Hwritten _].
  destruct (Hwritten id reverse DbFacts.two_shards written_batch written_before)
    as (s' & Hrun & Hrows & Hagain).
  - done.
  - intros l. apply reverse_Permutation.
  - apply (bool_decide_unpack _). vm_compute. exact I.
  - intros m Hm. unfold written_batch in Hm.
    repeat (apply elem_of_cons in Hm as [->|Hm]; [eexists _, _; vm_compute; reflexivity|]).
    inversion Hm.
  - exists s'. split; [exact Hrun|].
    assert (Hat : forall key t n,
              written_at key t ∈ written_batch ->
              GetTableNameAndDBClientByModel DbFacts.two_shards (written_at key t)
                = Ok (n, 1%nat) ->
              WrittenAt <$> table s' 1%nat n !! key
              = Some (match table written_before 1%nat n !! key with
                      | Some existing => Z.max (WrittenAt existing) t
                      | None => t
                      end)).
    { intros key t n Hin Hres.
      destruct (Hrows (written_at key t) n 1%nat Hin Hres) as (stored & Hst & Hspec).
      change (pk (written_at key t)) with key in Hst, Hspec.
      rewrite Hst. cbn [fmap option_fmap option_map].
      destruct (table written_before 1%nat n !! key) as [existing|].
      - destruct Hspec as (Hts & _). change (ts stored) with (WrittenAt stored) in Hts.
        change (ts existing) with (WrittenAt existing) in Hts.
        change (ts (written_at key t)) with t in Hts. by rewrite Hts.
      - by rewrite Hspec. }
    split; [|split; [|split]].
    + rewrite (Hat "{t}:k2" 200 "room_written_record_5");
        [vm_compute; reflexivity | left | vm_compute; reflexivity].
    + rewrite (Hat "{t}:name" 50 "room_written_record_5");
        [vm_compute; reflexivity | right; left | vm_compute; reflexivity].
    + rewrite (Hat "{u}:k" 70 "room_written_record_7");
        [vm_compute; reflexivity | do 2 right; left | vm_compute; reflexivity].
    + exact Hagain.
Defined.

(** The claim of C3 as it is written fails for a batch one of whose keys
    has no configured shard, and for a batch that holds a key twice.  The
    stored [written_at] of ["{t}:k2"] is 100.  In the first batch it comes
    with 200, next to key ["u42"] of shard 14, which no range contains: the
    upsert returns the no-DB-client error before any statement is sent.  In
    the second batch it comes with 200 and with 300: the statement is
    refused.  Both times the stored timestamp stays 100, not the later one. *)
Lemma bulk_upsert_leaves_older_timestamp :
  let unresolved :=
    bulkUpsertWrittenRecordModels id DbFacts.two_shards
      [ written_at "{t}:k2" 200; written_at "u42" 300 ] written_before in
  let twice :=
    bulkUpsertWrittenRecordModels id DbFacts.two_shards
      [ written_at "{t}:k2" 200; written_at "{t}:k2" 300 ] written_before in
  WrittenAt <$> table written_before 1%nat "room_written_record_5" !! "{t}:k2"
    = Some 100 /\
  unresolved.2 = Err ErrNoDBClient /\
  log unresolved.1 = [] /\
  WrittenAt <$> table unresolved.1 1%nat "room_written_record_5" !! "{t}:k2"
    = Some 100 /\
  twice.2 = Err pgCardinalityViolation /\
  WrittenAt <$> table twice.1 1%nat "room_written_record_5" !! "{t}:k2"
    = Some 100.
Proof. vm_compute. done. Qed.

End BulkFacts.

(** ** The event pipeline *)
Module EventFacts.
Import Go Event.

(** The entry of hash tag [tag] in the map of [s'] is the merge of [e1] and
    [e2], whose key sets are read in the store [h] of before the merge. *)
Definition merged (h : sets) (s' : HashTagEventService) (tag : string)
    (e1 e2 : HashTagEvent) : Prop :=
  exists e,
    events s' !! tag = Some e /\
    HashTag e = tag /\
    keysOf (heap s') (Keys e) = keysOf h (Keys e1) ∪ keysOf h (Keys e2) /\
    AccessTime e = Z.max (AccessTime e1) (AccessTime e2) /\
    (AccessMode e = HashTagAccessModeWrite <->
       AccessMode e1 = HashTagAccessModeWrite \/ AccessMode e2 = HashTagAccessModeWrite).

Lemma aggregate_first (service : HashTagEventService) (e : HashTagEvent) :
  events service !! HashTag e = None ->
  aggregateEvent e service
  = with_events (<[ HashTag e := e ]> (events service)) (heap service) service.
Proof. intros Hnone. unfold aggregateEvent. by rewrite Hnone. Qed.

Lemma keysOf_AddItems (h : sets) (l : loc) (items : gset string) :
  keysOf (AddItems l items h) l = keysOf h l ∪ items.
Proof. unfold keysOf at 1, AddItems. by rewrite lookup_insert_eq. Qed.

Lemma later_time (t u : Time) : (if After t u then t else u) = Z.max t u.
Proof. unfold After. destruct (u <? t) eqn:E; lia. Qed.

Lemma merge_then (service : HashTagEventService) (e1 e2 : HashTagEvent) :
  HashTag e1 = HashTag e2 ->
  events service !! HashTag e1 = None ->
  merged (heap service) (aggregateEvent e2 (aggregateEvent e1 service))
    (HashTag e1) e1 e2.
Proof.
  intros Htag Hnone. rewrite (aggregate_first service e1 Hnone).
  unfold aggregateEvent. simpl events. rewrite <- Htag, lookup_insert_eq.
  simpl heap.
  eexists. split; [simpl; apply lookup_insert_eq|].
  split; [reflexivity|]. simpl.
  split; [apply keysOf_AddItems|].
  split; [rewrite later_time; lia|].
  unfold HashTagAccessModeWrite. case_bool_decide as Hm; split; intros Hw; auto.
  destruct Hw as [Hw|Hw]; [contradiction | exact Hw].
Qed.

(** C1.  Two events of one hash tag, merged into a map that has no entry for
    that tag yet, in either order: the entry holds the union of the two key
    sets, the later of the two access times, and access mode write exactly
    when one of the two has access mode write. *)
Theorem aggregate_two_events (service : HashTagEventService) (e1 e2 : HashTagEvent) :
  HashTag e1 = HashTag e2 ->
  events service !! HashTag e1 = None ->
  merged (heap service) (aggregateEvent e2 (aggregateEvent e1 service))
    (HashTag e1) e1 e2 /\
  merged (heap service) (aggregateEvent e1 (aggregateEvent e2 service))
    (HashTag e1) e1 e2.
Proof.
  intros Htag Hnone. split; [by apply merge_then|].
  destruct (merge_then service e2 e1) as (e & He & Ht & Hk & Hat & Hm);
    [done | by rewrite <- Htag |].
  exists e. rewrite Htag. split; [exact He|]. split; [exact Ht|].
  split; [rewrite Hk; apply union_comm_L|].
  split; [lia | tauto].
Qed.

(** A running service with room for two events and nothing in it. *)
Definition idle : HashTagEventService :=
  {| config := {| EventReport := {| URL := "http://127.0.0.1/events";
                                    RequestMaxEvent := 2 |};
                  BufferLimit := 2 |};
     eventBuffer := {| buf := []; cap := 2; closed := false |};
     events := ∅;
     collectedEventBuffer := {| buf := []; cap := 2; closed := false |};
     heap := {[ 0%nat := {[ "{t}:k1" ]}; 1%nat := {[ "{t}:k2" ]};
                2%nat := {[ "{u}:k" ]} ]};
     logger := []; metric := []; requests := [] |}.

Definition read_k1 : HashTagEvent :=
  {| HashTag := "t"; Keys := 0%nat; AccessMode := "read"; AccessTime := 100 |}.

Definition write_k2 : HashTagEvent :=
  {| HashTag := "t"; Keys := 1%nat; AccessMode := "write"; AccessTime := 200 |}.

Definition read_u : HashTagEvent :=
  {| HashTag := "u"; Keys := 2%nat; AccessMode := "read"; AccessTime := 300 |}.

Lemma aggregate_two_events_witness :
  merged (heap idle) (aggregateEvent write_k2 (aggregateEvent read_k1 idle))
    "t" read_k1 write_k2 /\
  merged (heap idle) (aggregateEvent read_k1 (aggregateEvent write_k2 idle))
    "t" read_k1 write_k2.
Proof.
  apply (aggregate_two_events idle read_k1 write_k2); vm_compute; reflexivity.
Defined.

(** What is reported for hash tag ["t"] after a read of [k1] at time 100 and
    a write of [k2] at time 200, in either order. *)
Example aggregate_read_write :
  let s12 := aggregateEvent write_k2 (aggregateEvent read_k1 idle) in
  let s21 := aggregateEvent read_k1 (aggregateEvent write_k2 idle) in
  let expected := {| hash_tag := "t"; keys := {[ "{t}:k1"; "{t}:k2" ]};
                     access_mode := "write"; access_time := 200 |} in
  marshal (heap s12) <$> events s12 !! "t" = Some expected /\
  marshal (heap s21) <$> events s21 !! "t" = Some expected.
Proof. vm_compute. done. Qed.

(** *** Ingress *)

Lemma list_to_set_size_0 (keys : list string) :
  size (list_to_set (C := gset string) keys) = 0%nat -> keys = [].
Proof.
  intros Hsz. apply size_empty_inv in Hsz. destruct keys as [|k keys]; [done|].
  exfalso. apply (not_elem_of_empty (C := gset string) k). rewrite <- Hsz.
  apply elem_of_list_to_set. left.
Qed.

(** The events [NewHashTagEvent] accepts. *)
Lemma NewHashTagEvent_valid hashTag keys accessMode accessTime (h : sets) :
  hashTag <> "" -> accessMode <> "" -> Time_IsZero accessTime = false -> keys <> [] ->
  NewHashTagEvent hashTag keys accessMode accessTime h
  = (<[ fresh (dom h) := list_to_set keys ]> h,
     Ok {| HashTag := hashTag; Keys := fresh (dom h);
           AccessMode := accessMode; AccessTime := accessTime |}).
Proof.
  intros Htag Hmode Htime Hkeys. unfold NewHashTagEvent, NewStringSet, Check. simpl.
  rewrite !bool_decide_eq_false_2 by done. rewrite Htime.
  rewrite bool_decide_eq_false_2; [reflexivity|].
  unfold keysOf. rewrite lookup_insert_eq. simpl.
  intros Hsz. apply Hkeys. by apply list_to_set_size_0.
Qed.

(** C5, as the code has it.  While the event buffer is an open channel, a
    [SendEvent] of a valid event returns at once: at capacity the event is
    dropped and the buffer-full error returned, the buffer staying as it is;
    with free space the event is put at the end of the buffer and no error
    is returned. *)
Theorem send_event_on_open_buffer (service : HashTagEventService) hashTag keys
    accessMode accessTime (h' : sets) (event : HashTagEvent) :
  closed (eventBuffer service) = false ->
  NewHashTagEvent hashTag keys accessMode accessTime (heap service) = (h', Ok event) ->
  ((cap (eventBuffer service) <= length (buf (eventBuffer service)))%nat ->
     SendEvent hashTag keys accessMode accessTime service
     = (with_heap h' service,
        Err (errBufferFull (BufferLimit (config service)) (HashTag event)))) /\
  ((length (buf (eventBuffer service)) < cap (eventBuffer service))%nat ->
     SendEvent hashTag keys accessMode accessTime service
     = (with_eventBuffer {| buf := buf (eventBuffer service) ++ [event];
                            cap := cap (eventBuffer service);
                            closed := false |} (with_heap h' service),
        Ok ())).
Proof.
  intros Hopen Hnew. unfold SendEvent. rewrite Hnew. unfold send, trySend. simpl.
  rewrite Hopen. split; intros Hlen.
  - destruct (length (buf (eventBuffer service)) <? cap (eventBuffer service))%nat eqn:E.
    + apply Nat.ltb_lt in E. lia.
    + reflexivity.
  - destruct (length (buf (eventBuffer service)) <? cap (eventBuffer service))%nat eqn:E.
    + reflexivity.
    + apply Nat.ltb_ge in E. lia.
Qed.

(** The service with [evs] waiting in the event buffer. *)
Definition buffered (evs : list HashTagEvent) (service : HashTagEventService) :=
  with_eventBuffer {| buf := evs; cap := cap (eventBuffer service);
                      closed := closed (eventBuffer service) |} service.

(** The service after its event buffer has been closed. *)
Definition stopped (service : HashTagEventService) :=
  with_eventBuffer {| buf := buf (eventBuffer service);
                      cap := cap (eventBuffer service); closed := true |} service.

(** Into the empty buffer of capacity 2 the event is put; into the buffer
    that holds two events it is not. *)
Lemma send_event_on_open_buffer_witness :
  (exists s', SendEvent "t" ["{t}:k3"] "read" 400 idle = (s', Ok ()) /\
              length (buf (eventBuffer s')) = 1%nat) /\
  (exists s', SendEvent "t" ["{t}:k3"] "read" 400 (buffered [read_k1; write_k2] idle)
                = (s', Err (errBufferFull 2 "t")) /\
              buf (eventBuffer s') = [read_k1; write_k2]).
Proof.
  split.
  - destruct (send_event_on_open_buffer idle "t" ["{t}:k3"] "read" 400 _ _ eq_refl
                (NewHashTagEvent_valid "t" ["{t}:k3"] "read" 400 (heap idle)
                   ltac:(done) ltac:(done) eq_refl ltac:(done))) as [_ Hfree].
    eexists. split; [apply Hfree; vm_compute; lia|]. reflexivity.
  - destruct (send_event_on_open_buffer (buffered [read_k1; write_k2] idle)
                "t" ["{t}:k3"] "read" 400 _ _ eq_refl
                (NewHashTagEvent_valid "t" ["{t}:k3"] "read" 400 (heap idle)
                   ltac:(done) ltac:(done) eq_refl ltac:(done))) as [Hfull _].
    eexists. split; [apply Hfull; vm_compute; lia|]. reflexivity.
Defined.

(** The claim of C5 as it is written fails once the event buffer has been
    closed (as [drainEvents] does): the send panics, the deferred [recover]
    records the panic, and [SendEvent] returns no error.  With free space the
    event is not put into the buffer; at capacity no buffer-full error is
    returned. *)
Lemma send_event_on_closed_buffer :
  let free := SendEvent "t" ["{t}:k3"] "read" 400 (stopped idle) in
  let full := SendEvent "t" ["{t}:k3"] "read" 400
                (stopped (buffered [read_k1; write_k2] idle)) in
  (length (buf (eventBuffer (stopped idle))) < cap (eventBuffer (stopped idle)))%nat /\
  free.2 = Ok () /\
  buf (eventBuffer free.1) = [] /\
  metric free.1 = [metricSendEventPanic] /\
  full.2 = Ok () /\
  buf (eventBuffer full.1) = [read_k1; write_k2].
Proof. vm_compute. repeat split; lia. Qed.

(** *** Reporting *)

Definition nil_dereference : string :=
  "invalid memory address or nil pointer dereference".

(** A transport error: [Post] returns no response and an error.  The
    deferred closure of [_reportEvents] dereferences the response. *)
Lemma transport_error_panics Post (evs : list HashTagEvent)
    (service : HashTagEventService) (e : error) :
  evs <> [] ->
  Post (length (requests service)) (marshal (heap service) <$> evs) = (None, Some e) ->
  _reportEvents Post evs service
    = (with_request (marshal (heap service) <$> evs) service, Panic nil_dereference) /\
  reportEvents_round Post evs service
    = (with_request (marshal (heap service) <$> evs) service, Panic nil_dereference).
Proof.
  intros Hne Hpost. unfold reportEvents_round, _reportEvents.
  destruct evs as [|ev evs]; [done|]. simpl length. simpl Nat.eqb. cbv iota.
  rewrite Hpost. done.
Qed.

(** An answer other than 200: the error is returned, and the round logs it
    with the events, counts it, and goes on without the batch. *)
Lemma bad_status_is_recorded Post (evs : list HashTagEvent)
    (service : HashTagEventService) (code : Z) (body : string) :
  evs <> [] -> code <> 200 ->
  Post (length (requests service)) (marshal (heap service) <$> evs)
    = (Some {| StatusCode := code; Body := Ok body |}, None) ->
  _reportEvents Post evs service
    = (with_request (marshal (heap service) <$> evs) service,
       Err (errResponse code body)) /\
  reportEvents_round Post evs service
    = (recordReportEventsError evs (errResponse code body)
         (with_request (marshal (heap service) <$> evs) service), Ok ()).
Proof.
  intros Hne Hcode Hpost. unfold reportEvents_round, _reportEvents.
  destruct evs as [|ev evs]; [done|]. simpl length. simpl Nat.eqb. cbv iota.
  rewrite Hpost. simpl. destruct (code =? 200) eqn:E; [lia|]. done.
Qed.

(** The HTTP endpoint cannot be reached. *)
Definition refused (n : nat) (body : list reported) : option Response * option error :=
  (None, Some (errTransport "dial tcp 127.0.0.1:80: connect: connection refused")).

(** C7 on the code: for the batch of the one event [read_k1] and a POST that
    fails with a transport error, [_reportEvents] does not return the error:
    it panics, and so does the round of [reportEvents] around it, before
    anything is logged or counted. *)
Theorem report_events_transport_error :
  (_reportEvents refused [read_k1] idle).2 = Panic nil_dereference /\
  (reportEvents_round refused [read_k1] idle).2 = Panic nil_dereference /\
  logger (reportEvents_round refused [read_k1] idle).1 = [] /\
  metric (reportEvents_round refused [read_k1] idle).1 = [].
Proof.
  destruct (transport_error_panics refused [read_k1] idle
              (errTransport "dial tcp 127.0.0.1:80: connect: connection refused")
              ltac:(done) eq_refl) as [H1 H2].
  rewrite H1, H2. done.
Qed.

(** *** Drain *)

(** The run picks the timer case before channel [ch] is empty, or at the
    round that finds it empty. *)
Definition timer_picked (fire : option nat) (ch : chan) : Prop :=
  match fire with
  | Some n => (n <= length (buf ch))%nat
  | None => False
  end.

Lemma aggregateEvent_frame (event : HashTagEvent) (service : HashTagEventService) :
  requests (aggregateEvent event service) = requests service /\
  eventBuffer (aggregateEvent event service) = eventBuffer service /\
  collectedEventBuffer (aggregateEvent event service) = collectedEventBuffer service /\
  config (aggregateEvent event service) = config service.
Proof. unfold aggregateEvent. destruct (events service !! HashTag event); done. Qed.

Lemma set_buffer_frame (b : buffer) (ch : chan) (service : HashTagEventService) :
  requests (set_buffer b ch service) = requests service /\
  config (set_buffer b ch service) = config service /\
  get_buffer b (set_buffer b ch service) = ch /\
  (b = CollectedEventBuffer ->
   eventBuffer (set_buffer b ch service) = eventBuffer service).
Proof. destruct b; done. Qed.

Lemma emptify_timeout (b : buffer) (pending : list HashTagEvent) :
  forall (n : nat) (service : HashTagEventService),
    (n <= length pending)%nat ->
    exists s', emptify (Some n) b pending service = (s', Err errDrainEventTimeout) /\
               requests s' = requests service.
Proof.
  induction pending as [|ev rest IH]; intros n service Hn.
  - simpl in Hn. assert (n = 0%nat) as -> by lia. simpl. by eexists.
  - destruct n as [|n]; [simpl; by eexists|].
    simpl in Hn. simpl emptify.
    destruct (IH n (aggregateEvent ev
                      (set_buffer b {| buf := rest; cap := cap (get_buffer b service);
                                       closed := closed (get_buffer b service) |} service)))
      as (s' & Hrun & Hreq); [lia|].
    exists s'. split; [exact Hrun|]. rewrite Hreq.
    rewrite (proj1 (aggregateEvent_frame _ _)). by destruct b.
Qed.

Lemma emptify_complete (b : buffer) (pending : list HashTagEvent) :
  forall (fire : option nat) (service : HashTagEventService),
    match fire with Some n => (length pending < n)%nat | None => True end ->
    exists s', emptify fire b pending service = (s', Ok ()) /\
               requests s' = requests service /\
               config s' = config service /\
               (b = CollectedEventBuffer -> eventBuffer s' = eventBuffer service).
Proof.
  induction pending as [|ev rest IH]; intros fire service Hfire.
  - destruct fire as [[|n]|]; simpl in *; [lia | by eexists | by eexists].
  - set (service1 := aggregateEvent ev
                      (set_buffer b {| buf := rest; cap := cap (get_buffer b service);
                                       closed := closed (get_buffer b service) |} service)).
    destruct (IH (Nat.pred <$> fire) service1) as (s' & Hrun & Hreq & Hcfg & Hbuf).
    { destruct fire as [n|]; simpl in *; [lia | done]. }
    exists s'. split.
    { destruct fire as [[|n]|]; simpl in *; [lia | exact Hrun | exact Hrun]. }
    subst service1.
    destruct (aggregateEvent_frame ev
                (set_buffer b {| buf := rest; cap := cap (get_buffer b service);
                                 closed := closed (get_buffer b service) |} service))
      as (Ha1 & Ha2 & _ & Ha4).
    rewrite Hreq, Hcfg, Ha1, Ha4. split; [by destruct b|]. split; [by destruct b|].
    intros ->. rewrite Hbuf by done. rewrite Ha2. reflexivity.
Qed.

(** C8, as the code has it.  When the timer case is picked while one of the
    two channels is emptied, [drainEvents] returns the drain-timeout error
    at once: no HTTP request is sent, so the events left in the map are not
    flushed; [Stop] records the error and returns. *)
Theorem drain_timeout_skips_flush Post (fire1 fire2 : option nat)
    (order : list HashTagEvent -> list HashTagEvent) (service : HashTagEventService) :
  closed (collectedEventBuffer service) = false ->
  closed (eventBuffer service) = false ->
  timer_picked fire1 (collectedEventBuffer service) \/
  (~ timer_picked fire1 (collectedEventBuffer service) /\
   timer_picked fire2 (eventBuffer service)) ->
  exists s',
    drainEvents Post fire1 fire2 order service = (s', Err errDrainEventTimeout) /\
    requests s' = requests service /\
    Stop Post fire1 fire2 order service
      = (recordDrainError errDrainEventTimeout s', Ok ()).
Proof.
  intros Hopen1 Hopen2 Hfire.
  assert (Hdrain : exists s',
            drainEvents Post fire1 fire2 order service = (s', Err errDrainEventTimeout) /\
            requests s' = requests service).
  { unfold drainEvents, closeAndEmptifyChannelWithTimer at 1, close. simpl get_buffer.
    rewrite Hopen1. simpl buf.
    destruct Hfire as [Hf1 | [Hn1 Hf2]].
    - destruct fire1 as [n|]; [|done]. simpl in Hf1.
      destruct (emptify_timeout CollectedEventBuffer (buf (collectedEventBuffer service)) n
                  (set_buffer CollectedEventBuffer
                     {| buf := buf (collectedEventBuffer service);
                        cap := cap (collectedEventBuffer service); closed := true |}
                     service) Hf1) as (s' & Hrun & Hreq).
      rewrite Hrun. exists s'. done.
    - destruct (emptify_complete CollectedEventBuffer (buf (collectedEventBuffer service))
                  fire1
                  (set_buffer CollectedEventBuffer
                     {| buf := buf (collectedEventBuffer service);
                        cap := cap (collectedEventBuffer service); closed := true |}
                     service)) as (s1 & Hrun1 & Hreq1 & _ & Hbuf1).
      { destruct fire1 as [n|]; [|done]. simpl in Hn1. lia. }
      rewrite Hrun1. specialize (Hbuf1 eq_refl). simpl in Hbuf1, Hreq1.
      unfold closeAndEmptifyChannelWithTimer, close. simpl get_buffer.
      rewrite Hbuf1, Hopen2. simpl buf.
      destruct fire2 as [n|]; [|done]. simpl in Hf2.
      destruct (emptify_timeout EventBuffer (buf (eventBuffer service)) n
                  (set_buffer EventBuffer
                     {| buf := buf (eventBuffer service);
                        cap := cap (eventBuffer service); closed := true |} s1) Hf2)
        as (s' & Hrun & Hreq).
      rewrite Hrun. exists s'. split; [done|]. rewrite Hreq. exact Hreq1. }
  destruct Hdrain as (s' & Hrun & Hreq). exists s'.
  split; [exact Hrun|]. split; [exact Hreq|].
  unfold Stop. rewrite Hrun. reflexivity.
Qed.

(** Every request is answered with status 200. *)
Definition accepting (Post : nat -> list reported -> option Response * option error)
    : Prop :=
  forall n body, exists r, Post n body = (Some r, None) /\ StatusCode r = 200.

Lemma report_accepted Post (evs : list HashTagEvent) (service : HashTagEventService) :
  accepting Post ->
  _reportEvents Post evs service
  = (match evs with
     | [] => service
     | _ => with_request (marshal (heap service) <$> evs) service
     end, Ok ()).
Proof.
  intros Hok. unfold _reportEvents. destruct evs as [|ev evs]; [reflexivity|].
  simpl length. simpl Nat.eqb. cbv iota.
  destruct (Hok (length (requests service)) (marshal (heap service) <$> ev :: evs))
    as (r & -> & Hr).
  simpl. rewrite Hr. reflexivity.
Qed.

(** The loop of the flush under an accepting endpoint: full batches are
    sent, in order, and the events not yet sent are handed back. *)
Lemma flush_accepted Post (requestMaxEvent : Z) (pending : list HashTagEvent) :
  accepting Post ->
  forall (evs : list HashTagEvent) (service : HashTagEventService),
    Z.of_nat (length evs) < requestMaxEvent ->
    exists s' rest batches,
      flush Post requestMaxEvent pending evs service = (s', Ok rest) /\
      requests s' = requests service ++ batches /\
      heap s' = heap service /\ events s' = events service /\
      config s' = config service /\
      concat batches ++ (marshal (heap service) <$> rest)
        = marshal (heap service) <$> (evs ++ pending) /\
      Forall (λ b, Z.of_nat (length b) = requestMaxEvent) batches /\
      Z.of_nat (length rest) < requestMaxEvent.
Proof.
  intros Hok. induction pending as [|ev pending IH]; intros evs service Hlen.
  - exists service, evs, []. simpl. rewrite !app_nil_r. done.
  - simpl flush.
    destruct (Z.of_nat (length (evs ++ [ev])) =? requestMaxEvent) eqn:Efull.
    + apply Z.eqb_eq in Efull. rewrite (report_accepted Post _ service Hok).
      destruct (evs ++ [ev]) as [|x l] eqn:Ebatch; [by destruct evs|].
      rewrite <- Ebatch in *.
      destruct (IH [] (with_request (marshal (heap service) <$> evs ++ [ev]) service))
        as (s' & rest & batches & Hrun & Hreq & Hheap & Hev & Hcfg & Hcat & Hall & Hrest).
      { simpl. lia. }
      exists s', rest, ((marshal (heap service) <$> evs ++ [ev]) :: batches).
      split; [exact Hrun|]. simpl in Hreq, Hheap, Hev, Hcfg, Hcat.
      split; [rewrite Hreq, <- app_assoc; reflexivity|].
      repeat (split; [done|]).
      split.
      { simpl concat. rewrite <- app_assoc, Hcat.
        rewrite <- fmap_app, <- app_assoc. reflexivity. }
      split; [|done].
      constructor; [|done]. rewrite length_fmap. lia.
    + apply Z.eqb_neq in Efull.
      destruct (IH (evs ++ [ev]) service)
        as (s' & rest & batches & Hrun & Hreq & Hheap & Hev & Hcfg & Hcat & Hall & Hrest).
      { rewrite length_app in *. simpl in *. lia. }
      exists s', rest, batches. split; [exact Hrun|].
      repeat (split; [done|]).
      split; [|done]. rewrite Hcat, <- app_assoc. reflexivity.
Qed.

(** When neither channel meets the timer and the endpoint accepts every
    request, [drainEvents] succeeds and everything in the map has been sent,
    once, in batches of at most [requestMaxEvent] events. *)
Lemma drain_flushes Post (fire1 fire2 : option nat)
    (order : list HashTagEvent -> list HashTagEvent) (service : HashTagEventService) :
  accepting Post ->
  0 < RequestMaxEvent (EventReport (config service)) ->
  closed (collectedEventBuffer service) = false ->
  closed (eventBuffer service) = false ->
  ~ timer_picked fire1 (collectedEventBuffer service) ->
  ~ timer_picked fire2 (eventBuffer service) ->
  exists s' batches,
    drainEvents Post fire1 fire2 order service = (s', Ok ()) /\
    requests s' = requests service ++ batches /\
    concat batches = marshal (heap s') <$> order ((map_to_list (events s')).*2) /\
    Forall (λ b, 0 < Z.of_nat (length b) <= RequestMaxEvent (EventReport (config service)))
      batches.
Proof.
  intros Hok Hmax Hopen1 Hopen2 Hn1 Hn2.
  unfold drainEvents, closeAndEmptifyChannelWithTimer at 1, close. simpl get_buffer.
  rewrite Hopen1. simpl buf.
  destruct (emptify_complete CollectedEventBuffer (buf (collectedEventBuffer service))
              fire1
              (set_buffer CollectedEventBuffer
                 {| buf := buf (collectedEventBuffer service);
                    cap := cap (collectedEventBuffer service); closed := true |}
                 service)) as (s1 & Hrun1 & Hreq1 & Hcfg1 & Hbuf1).
  { destruct fire1 as [n|]; [|done]. simpl in Hn1. lia. }
  rewrite Hrun1. specialize (Hbuf1 eq_refl). simpl in Hbuf1, Hreq1, Hcfg1.
  unfold closeAndEmptifyChannelWithTimer, close. simpl get_buffer.
  rewrite Hbuf1, Hopen2. simpl buf.
  destruct (emptify_complete EventBuffer (buf (eventBuffer service)) fire2
              (set_buffer EventBuffer
                 {| buf := buf (eventBuffer service);
                    cap := cap (eventBuffer service); closed := true |} s1))
    as (s2 & Hrun2 & Hreq2 & Hcfg2 & _).
  { destruct fire2 as [n|]; [|done]. simpl in Hn2. lia. }
  rewrite Hrun2. simpl in Hreq2, Hcfg2.
  destruct (flush_accepted Post (RequestMaxEvent (EventReport (config s2)))
              (order ((map_to_list (events s2)).*2)) Hok [] s2)
    as (s3 & rest & batches & Hrun3 & Hreq3 & Hheap3 & Hev3 & Hcfg3 & Hcat & Hall & Hrest).
  { simpl. rewrite Hcfg2, Hcfg1. exact Hmax. }
  rewrite Hrun3. rewrite (report_accepted Post rest s3 Hok).
  rewrite Hcfg2, Hcfg1 in Hall, Hrest.
  destruct rest as [|x rest].
  - exists s3, batches. split; [reflexivity|].
    split; [rewrite Hreq3, Hreq2, Hreq1; reflexivity|].
    split.
    + rewrite Hheap3, Hev3. simpl in Hcat. rewrite app_nil_r in Hcat. exact Hcat.
    + eapply Forall_impl; [exact Hall|]. simpl. intros b Hb. lia.
  - exists (with_request (marshal (heap s3) <$> x :: rest) s3),
           (batches ++ [marshal (heap s3) <$> x :: rest]).
    split; [reflexivity|].
    split; [simpl; rewrite Hreq3, Hreq2, Hreq1, <- app_assoc; reflexivity|].
    split.
    + simpl heap. simpl events. rewrite concat_app. simpl concat.
      rewrite app_nil_r, Hheap3, Hev3. exact Hcat.
    + apply Forall_app. split.
      * eapply Forall_impl; [exact Hall|]. simpl. intros b Hb. lia.
      * constructor; [|done]. rewrite length_fmap. simpl in *. lia.
Qed.

(** An endpoint that accepts everything. *)
Definition accepted (n : nat) (body : list reported) : option Response * option error :=
  (Some {| StatusCode := 200; Body := Ok "" |}, None).

(** A service at shutdown: the event of hash tag ["t"] is in the map, the
    event of hash tag ["u"] is still in the collected buffer. *)
Definition at_shutdown : HashTagEventService :=
  with_collectedEventBuffer {| buf := [read_u]; cap := 2; closed := false |}
    (aggregateEvent write_k2 idle).

(** With [drainDuration = 0] the timer case can be picked at the first
    round: the drain times out, nothing is sent, [Stop] records the error. *)
Lemma drain_timeout_skips_flush_witness :
  exists s',
    drainEvents accepted (Some 0%nat) None id at_shutdown
      = (s', Err errDrainEventTimeout) /\
    requests s' = [] /\
    Stop accepted (Some 0%nat) None id at_shutdown
      = (recordDrainError errDrainEventTimeout s', Ok ()).
Proof.
  apply (drain_timeout_skips_flush accepted (Some 0%nat) None id at_shutdown);
    [reflexivity | reflexivity |].
  left. vm_compute. lia.
Defined.

(** The claim of C8 as it is written fails: the map and the collected buffer
    are not empty, the timer case is picked at once, the endpoint would
    accept every request, and still no request is sent. *)
Lemma drain_timeout_sends_nothing :
  events at_shutdown <> ∅ /\
  buf (collectedEventBuffer at_shutdown) <> [] /\
  (drainEvents accepted (Some 0%nat) None id at_shutdown).2 = Err errDrainEventTimeout /\
  requests (drainEvents accepted (Some 0%nat) None id at_shutdown).1 = [] /\
  events (drainEvents accepted (Some 0%nat) None id at_shutdown).1 <> ∅.
Proof.
  assert (Hmap : forall m : gmap string HashTagEvent, m !! "t" <> None -> m <> ∅).
  { intros m Hm ->. apply Hm. apply lookup_empty. }
  split; [apply Hmap; vm_compute; done|].
  split; [vm_compute; done|].
  split; [vm_compute; done|].
  split; [vm_compute; done|].
  apply Hmap. vm_compute. done.
Qed.

(** Without a timeout the same service sends both events, in one batch of
    two. *)
Example drain_without_timeout :
  (drainEvents accepted None None id at_shutdown).2 = Ok () /\
  length <$> requests (drainEvents accepted None None id at_shutdown).1 = [2%nat].
Proof. vm_compute. done. Qed.

End EventFacts.

(** ** The command dispatcher *)
Module ServerFacts.
Import Go Server.

Section Batch.

Variables World Commander Transaction : Type.
Variable ParseCommand : list string -> outcome Commander.
Variable Name : Commander -> string.
Variables ReadKeys WriteKeys : Commander -> list string.
Variable CheckAndGetCommandKeysHashTag : Commander -> outcome string.
Variable GetCommnadKeysAccessMode : Commander -> string.
Variable Load : string -> Time -> string -> World -> World * outcome unit.
Variable NewTransaction : World -> Transaction.
Variable Process : Transaction -> Commander -> World -> Transaction * World * RESPData.
Variable IsClosed : Transaction -> bool.
Variable ExecuteCommand : Commander -> World -> World * RESPData.
Variable SendEvent : string -> list string -> string -> Time -> World -> World * outcome unit.
Variable AnyToString : RESPValue -> string.

Let serve :=
  connServeHandler World Commander Transaction ParseCommand Name ReadKeys WriteKeys
    CheckAndGetCommandKeysHashTag GetCommnadKeysAccessMode Load NewTransaction
    Process IsClosed ExecuteCommand SendEvent AnyToString.

Let preProcess :=
  preProcessCommand World Commander Transaction CheckAndGetCommandKeysHashTag
    GetCommnadKeysAccessMode Load.

(** A command that does not parse: one error reply, one error metric, and
    the handler returns; the commands after it in the batch play no part. *)
Lemma parse_error_ends_batch (serveStartTime : Time) (args : list string)
    (rest : list (list string)) (st : serving World Transaction) (err : error) :
  ParseCommand args = Err err ->
  serve serveStartTime (args :: rest) st
  = (written [WriteError (plainError err)]
       (metered (MetricIncrease "error.parse_command")
          (metered (MetricIncrease "process.command") st)), Ok ()).
Proof. intros Hparse. unfold serve. simpl. rewrite Hparse. reflexivity. Qed.

(** The same for a command whose keys or whose load fail. *)
Lemma pre_process_error_ends_batch (serveStartTime : Time) (args : list string)
    (rest : list (list string)) (st st' : serving World Transaction)
    (command : Commander) (err : respError) :
  ParseCommand args = Ok command ->
  preProcess command serveStartTime (metered (MetricIncrease "process.command") st)
    = (st', Failed err) ->
  serve serveStartTime (args :: rest) st
  = (written [WriteError err] (metered (MetricIncrease "error.pre_process") st'), Ok ()).
Proof.
  intros Hparse Hpre. unfold serve, preProcess in *. simpl.
  rewrite Hparse, Hpre. reflexivity.
Qed.

End Batch.

(** A small instance of the packages behind the dispatcher: [get] answers
    ["alice"], any other command does not parse. *)
Definition toy_parse (args : list string) : outcome (list string) :=
  match args with
  | "get" :: _ => Ok args
  | _ => Err (errOther "ERR unknown command")
  end.

Definition toy_serve :=
  connServeHandler unit (list string) unit toy_parse (hd "") (tail) (λ _, [])
    (λ _, Ok "t") (λ _, "read") (λ _ _ _ w, (w, Ok ())) (λ _, tt)
    (λ t _ w, (t, w, RESP NilRespType AnyNil)) (λ _, false)
    (λ _ w, (w, RESP BulkStringRespType (AnyString "alice")))
    (λ _ _ _ _ w, (w, Ok ()))
    (λ v, match v with AnyString s => s | _ => "" end).

Definition fresh_conn : serving unit unit :=
  {| conn := []; metric := []; transaction := None; world := tt |}.

(** C9 on the code: a pipelined batch of a command that does not parse and a
    [get].  One error is written and the handler returns: the [get] is never
    started (one [process.command] only) and never answered, while on its
    own it is answered. *)
Theorem pipelined_batch_stops_at_error :
  conn (toy_serve 0 [["bogus"]; ["get"; "{t}:name"]] fresh_conn).1
    = [WriteError (plainError (errOther "ERR unknown command"))] /\
  metric (toy_serve 0 [["bogus"]; ["get"; "{t}:name"]] fresh_conn).1
    = [MetricIncrease "process.command"; MetricIncrease "error.parse_command"] /\
  conn (toy_serve 0 [["get"; "{t}:name"]] fresh_conn).1 = [WriteBulkString "alice"].
Proof.
  unfold toy_serve.
  rewrite (parse_error_ends_batch unit (list string) unit toy_parse _ _ _ _ _ _ _ _ _ _ _ _
             0 ["bogus"] [["get"; "{t}:name"]] fresh_conn
             (errOther "ERR unknown command") eq_refl).
  vm_compute. done.
Qed.

End ServerFacts.

(** ** More on the shard mapper *)
Module DbMoreFacts.
Import Go Db DbConfig DbFacts.

(** X1: a full cover.  When the low 32 bits of the sharding count are not
    zero and every index below them lies in some configured range, every
    model resolves: to some client, and to the table of its prefix and an
    index below the count. *)
Theorem covered_cluster_resolves `{Model M} (dbCluster : DBCluster) (model : M) :
  uint32 (shardingCount dbCluster) <> 0 ->
  (forall i, 0 <= i < uint32 (shardingCount dbCluster) ->
     exists c, c ∈ clients dbCluster /\ covers c i) ->
  exists i h,
    0 <= i < uint32 (shardingCount dbCluster) /\
    GetShardingIndex dbCluster (ShardingKey model) = Ok i /\
    GetTableNameAndDBClientByModel dbCluster model
      = Ok (table_name (GetTablePrefix model) i, h) /\
    Models dbCluster (GetTablePrefix model) i
      = Ok (table_name (GetTablePrefix model) i, h).
Proof.
  intros Hnz Hcover.
  set (d := uint32 (shardingCount dbCluster)) in *.
  assert (Hd : 0 < d).
  { subst d. unfold uint32 in *. pose proof (Z.mod_pos_bound (shardingCount dbCluster) (2 ^ 32)).
    lia. }
  set (i := Crc32.ChecksumIEEE (Crc32.bytes_of_string (ShardingKey model)) mod d).
  assert (Hi : 0 <= i < d) by (apply Z.mod_pos_bound; lia).
  assert (Hidx : getTableIndex (ShardingKey model) (shardingCount dbCluster) = Ok i).
  { unfold getTableIndex. fold d. destruct (d =? 0) eqn:E; [lia | reflexivity]. }
  destruct (getClientByIndex dbCluster i) as [h|] eqn:Hh.
  - exists i, h. split; [exact Hi|]. split; [exact Hidx|].
    unfold GetTableNameAndDBClientByModel, Models. rewrite Hidx. simpl. by rewrite Hh.
  - exfalso. destruct (Hcover i Hi) as (c & Hc & Hcov).
    exact (proj1 (scanClients_None (clients dbCluster) i) Hh c Hc Hcov).
Qed.

(** Four shards, two databases whose ranges overlap at index 1. *)
Definition overlapping : DBCluster :=
  {| clients := [ {| startIndex := 0; endIndex := 1; client := 1%nat |};
                  {| startIndex := 1; endIndex := 3; client := 2%nat |} ];
     shardingCount := 4 |}.

Lemma covered_cluster_resolves_witness :
  exists i h,
    0 <= i < uint32 (shardingCount overlapping) /\
    GetShardingIndex overlapping (ShardingKey (document "t")) = Ok i /\
    GetTableNameAndDBClientByModel overlapping (document "t")
      = Ok (table_name (GetTablePrefix (document "t")) i, h) /\
    Models overlapping (GetTablePrefix (document "t")) i
      = Ok (table_name (GetTablePrefix (document "t")) i, h).
Proof.
  apply (covered_cluster_resolves overlapping (document "t")).
  - vm_compute. discriminate.
  - intros i Hi. change (uint32 (shardingCount overlapping)) with 4 in Hi.
    unfold covers. destruct (decide (i <= 1)).
    + eexists. split; [left|]. simpl. lia.
    + eexists. split; [right; left|]. simpl. lia.
Defined.

(** X2: table names.  The table name determines the shard index: two indexes
    never share a table of one prefix; hence two models of one table prefix
    that resolve to the same table name are served by the same client. *)
Theorem one_table_one_client `{Model M} (dbCluster : DBCluster) (m m' : M)
    (n : string) (c c' : pgDB) :
  GetTablePrefix m = GetTablePrefix m' ->
  GetTableNameAndDBClientByModel dbCluster m = Ok (n, c) ->
  GetTableNameAndDBClientByModel dbCluster m' = Ok (n, c') ->
  GetShardingIndex dbCluster (ShardingKey m) = GetShardingIndex dbCluster (ShardingKey m') /\
  c = c'.
Proof.
  unfold GetTableNameAndDBClientByModel, GetShardingIndex. intros ->.
  destruct (getTableIndex (ShardingKey m) (shardingCount dbCluster)) as [i| |]; simpl; [|done..].
  destruct (getTableIndex (ShardingKey m') (shardingCount dbCluster)) as [i'| |]; simpl; [|done..].
  destruct (getClientByIndex dbCluster i) as [h|] eqn:Hh; [|done].
  destruct (getClientByIndex dbCluster i') as [h'|] eqn:Hh'; [|done].
  intros [= <- <-] [= Hname <-]. unfold table_name in Hname.
  apply (inj (String.app _)) in Hname. apply (inj (String.app _)) in Hname.
  apply (inj pretty) in Hname. subst i'. split; [reflexivity | congruence].
Qed.

Lemma one_table_one_client_witness :
  GetShardingIndex two_shards (ShardingKey (BulkFacts.written_at "{t}:k2" 1))
    = GetShardingIndex two_shards (ShardingKey (BulkFacts.written_at "{t}:name" 2)) /\
  1%nat = 1%nat.
Proof.
  apply (one_table_one_client two_shards
           (BulkFacts.written_at "{t}:k2" 1) (BulkFacts.written_at "{t}:name" 2)
           "room_written_record_5" 1%nat 1%nat); vm_compute; reflexivity.
Defined.

Section Build.
Variable newDBClient : DBConfig -> outcome pgDB.

Lemma connectAll_ranges (cfgs : list DBConfig) :
  forall (acc cs : list dbClient),
    connectAll newDBClient cfgs acc = Ok cs ->
    exists new,
      cs = acc ++ new /\
      Forall2 (λ cfg c, startIndex c = StartShardingIndex cfg /\
                        endIndex c = EndShardingIndex cfg /\
                        newDBClient cfg = Ok (client c)) cfgs new.
Proof.
  induction cfgs as [|cfg rest IH]; intros acc cs Hrun; simpl in Hrun.
  - injection Hrun as <-. exists []. by rewrite app_nil_r.
  - destruct (newDBClient cfg) as [h| |] eqn:Hc; [|done..].
    destruct (IH _ _ Hrun) as (new & -> & Hall).
    eexists (_ :: new). rewrite <- app_assoc. split; [reflexivity|].
    constructor; [simpl; done | exact Hall].
Qed.

(** X3: the constructor.  [NewDBClusterFromConfig] refuses a sharding count
    that is not positive; a cluster it returns has the configured, positive
    sharding count and one client per configured database, in configuration
    order and with the configured ranges, which it does not validate. *)
Theorem cluster_from_config (config : DBClusterConfig) :
  (ShardingCount config <= 0 ->
     NewDBClusterFromConfig newDBClient config
       = Err (errOther "sharding_count should be greater than 0")) /\
  (forall dbCluster,
     NewDBClusterFromConfig newDBClient config = Ok dbCluster ->
     shardingCount dbCluster = ShardingCount config /\
     0 < shardingCount dbCluster /\
     Forall2 (λ cfg c, startIndex c = StartShardingIndex cfg /\
                       endIndex c = EndShardingIndex cfg /\
                       newDBClient cfg = Ok (client c))
       (Shardings config) (clients dbCluster)).
Proof.
  unfold NewDBClusterFromConfig. split.
  - intros Hle. destruct (ShardingCount config <=? 0) eqn:E; [reflexivity | lia].
  - intros dbCluster. destruct (ShardingCount config <=? 0) eqn:E; [done|].
    destruct (connectAll newDBClient (Shardings config) []) as [cs| |] eqn:Hc; [|done..].
    intros [= <-]. simpl. split; [done|]. split; [lia|].
    destruct (connectAll_ranges _ _ _ Hc) as (new & -> & Hall). exact Hall.
Qed.

End Build.

(** A connection that always succeeds, with the start index as handle. *)
Definition connected (cfg : DBConfig) : outcome pgDB :=
  Ok (Z.to_nat (StartShardingIndex cfg)).

Definition sixteen : DBClusterConfig :=
  {| ShardingCount := 16;
     Shardings := [ {| StartShardingIndex := 0; EndShardingIndex := 7; URL := "postgres://a" |};
                    {| StartShardingIndex := 8; EndShardingIndex := 11; URL := "postgres://b" |} ] |}.

Definition none_configured : DBClusterConfig := {| ShardingCount := 0; Shardings := [] |}.

Lemma cluster_from_config_witness :
  NewDBClusterFromConfig connected none_configured
    = Err (errOther "sharding_count should be greater than 0") /\
  (shardingCount {| clients := [ {| startIndex := 0; endIndex := 7; client := 0%nat |};
                                 {| startIndex := 8; endIndex := 11; client := 8%nat |} ];
                    shardingCount := 16 |} = ShardingCount sixteen /\
   0 < 16).
Proof.
  destruct (cluster_from_config connected none_configured) as [Hbad _].
  destruct (cluster_from_config connected sixteen) as [_ Hgood].
  split; [apply Hbad; vm_compute; discriminate|].
  destruct (Hgood {| clients := [ {| startIndex := 0; endIndex := 7; client := 0%nat |};
                                  {| startIndex := 8; endIndex := 11; client := 8%nat |} ];
                     shardingCount := 16 |} eq_refl) as (H1 & H2 & _).
  split; [exact H1 | exact H2].
Defined.

End DbMoreFacts.

(** ** Documents: load, delete, replace, and how they compose *)
Module DocumentFacts.
Import Go Db Storage Documents UpsertFacts.

Lemma interfere_id {R} (s : pg R) : interfere id s = s.
Proof. by destruct s. Qed.

Lemma table_logged {R} (s : pg R) (st : stmt) (client : pgDB) (name : string) :
  table (logged s st) client name = table s client name.
Proof. reflexivity. Qed.

Lemma int64_succ_ne (v : Z) : int64 (v + 1) <> v.
Proof.
  unfold int64. intros Heq.
  pose proof (Z.mod_pos_bound (v + 1 + 2 ^ 63) (2 ^ 64) ltac:(lia)) as Hb.
  assert (Hv : - 2 ^ 63 <= v < 2 ^ 63) by lia.
  assert (Hm : (v + 1 + 2 ^ 63) mod 2 ^ 64 = v + 2 ^ 63) by lia.
  destruct (decide (v = 2 ^ 63 - 1)) as [->|Hne].
  - vm_compute in Hm. discriminate.
  - rewrite Z.mod_small in Hm by lia. lia.
Qed.

Section OneDocument.

Variable db : DBCluster.
Variable hashTag : string.
Variable tableName : string.
Variable client : pgDB.
Hypothesis resolved :
  GetTableNameAndDBClientByModel db (newRoomDataModelV2 hashTag) = Ok (tableName, client).

Lemma load_row (s : pg roomDataModelV2) :
  loadDataByID db hashTag s
  = (logged s (SELECT client tableName hashTag),
     match table s client tableName !! hashTag with
     | Some row => if Time_IsZero (DeletedAt row) then Ok (Some row) else Ok None
     | None => Ok None
     end).
Proof.
  unfold loadDataByID, SelectWhere. rewrite resolved.
  destruct (table s client tableName !! hashTag) as [row|]; [|reflexivity].
  destruct (Time_IsZero (DeletedAt row)); reflexivity.
Qed.

(** Without interference an attempt of the single-key upsert succeeds, and
    the row it leaves is the selected row with the key set and the version
    raised, or the new row. *)
Lemma upsert_alone (key : string) (value : RedisValue) (now : Time)
    (s : pg roomDataModelV2) :
  IsZero value = false ->
  exists s',
    _upsertRoomData id db now hashTag key value s = (s', Ok ()) /\
    table s' client tableName !! hashTag
    = Some match table s client tableName !! hashTag with
           | Some old => {| HashTag := HashTag old;
                            Value := <[ key := value ]> (Value old);
                            DeletedAt := DeletedAt old; CreatedAt := CreatedAt old;
                            UpdatedAt := now; Version := int64 (Version old + 1) |}
           | None => {| HashTag := hashTag; Value := {[ key := value ]};
                        DeletedAt := zeroTime; CreatedAt := now; UpdatedAt := now;
                        Version := 0 |}
           end.
Proof.
  intros Hnz. destruct (table s client tableName !! hashTag) as [old|] eqn:Hold.
  - apply (upsert_present db hashTag key value tableName client Hnz resolved id now s old old);
      [done | by rewrite interfere_id | done].
  - apply (upsert_absent db hashTag key value tableName client Hnz resolved id now s);
      [done | by rewrite interfere_id].
Qed.

End OneDocument.

(** X4: upsert, then load.  After an upsert of a non-zero value that meets no
    interference, loading the hash tag gives the document with the key set
    to the value: the old map with the key set and the version raised by
    one, or a new document with the key alone at version 0.  When the row
    was soft-deleted the upsert still succeeds and the load still answers
    [nil]. *)
Theorem upsert_then_load (db : DBCluster) (hashTag key : string) (value : RedisValue)
    (tableName : string) (client : pgDB) (now : Time) (s : pg roomDataModelV2) :
  IsZero value = false ->
  GetTableNameAndDBClientByModel db (newRoomDataModelV2 hashTag) = Ok (tableName, client) ->
  exists s',
    _upsertRoomData id db now hashTag key value s = (s', Ok ()) /\
    (loadDataByID db hashTag s').2
    = match table s client tableName !! hashTag with
      | Some old =>
          if Time_IsZero (DeletedAt old)
          then Ok (Some {| HashTag := HashTag old;
                           Value := <[ key := value ]> (Value old);
                           DeletedAt := DeletedAt old; CreatedAt := CreatedAt old;
                           UpdatedAt := now; Version := int64 (Version old + 1) |})
          else Ok None
      | None =>
          Ok (Some {| HashTag := hashTag; Value := {[ key := value ]};
                      DeletedAt := zeroTime; CreatedAt := now; UpdatedAt := now;
                      Version := 0 |})
      end.
Proof.
  intros Hnz Hres.
  destruct (upsert_alone db hashTag tableName client Hres key value now s Hnz)
    as (s' & Hrun & Hrow).
  exists s'. split; [exact Hrun|].
  rewrite (load_row db hashTag tableName client Hres). simpl. rewrite Hrow.
  destruct (table s client tableName !! hashTag) as [old|]; simpl; [|reflexivity].
  destruct (Time_IsZero (DeletedAt old)); reflexivity.
Qed.

Lemma upsert_then_load_witness :
  exists s',
    _upsertRoomData id DbFacts.two_shards 9 "t" "{t}:age" name_value created = (s', Ok ()) /\
    (loadDataByID DbFacts.two_shards "t" s').2
    = Ok (Some {| HashTag := "t";
                  Value := {[ "{t}:name" := name_value; "{t}:age" := name_value ]};
                  DeletedAt := zeroTime; CreatedAt := 5; UpdatedAt := 9; Version := 1 |}).
Proof.
  destruct (upsert_then_load DbFacts.two_shards "t" "{t}:age" name_value
              "room_data_v2_8" 2%nat 9 created eq_refl) as (s' & Hrun & Hload).
  { vm_compute. reflexivity. }
  exists s'. split; [exact Hrun|]. rewrite Hload. vm_compute. reflexivity.
Defined.

(** X5: delete.  [deleteRoomData] removes the key from the value map of the
    row and raises its version by one, whatever the version and whether or
    not the key was there; the other keys and the other rows stay.  When the
    hash tag has no row, nothing changes and no error is returned. *)
Theorem delete_key (db : DBCluster) (hashTag key : string)
    (tableName : string) (client : pgDB) (now : Time) (s : pg roomDataModelV2) :
  GetTableNameAndDBClientByModel db (newRoomDataModelV2 hashTag) = Ok (tableName, client) ->
  exists s',
    deleteRoomData db now hashTag key s = (s', Ok ()) /\
    table s' client tableName !! hashTag
    = (λ old, {| HashTag := HashTag old; Value := delete key (Value old);
                 DeletedAt := DeletedAt old; CreatedAt := CreatedAt old;
                 UpdatedAt := now; Version := Version old + 1 |})
      <$> table s client tableName !! hashTag /\
    (forall other, other <> hashTag ->
       table s' client tableName !! other = table s client tableName !! other) /\
    (forall c n, (c, n) <> (client, tableName) -> table s' c n = table s c n) /\
    (table s client tableName !! hashTag = None -> tables s' = tables s).
Proof.
  intros Hres. unfold deleteRoomData, Update. rewrite Hres.
  destruct (table s client tableName !! hashTag) as [old|] eqn:Hold.
  - eexists. split; [reflexivity|]. rewrite table_set_table.
    split; [by rewrite lookup_insert_eq|].
    split; [intros other Hne; by rewrite lookup_insert_ne|].
    split; [|done].
    intros c n Hne. unfold table, set_table. simpl. by rewrite lookup_insert_ne.
  - eexists. split; [reflexivity|]. rewrite table_logged.
    split; [by rewrite Hold|]. done.
Qed.

Lemma delete_key_witness :
  exists s',
    deleteRoomData DbFacts.two_shards 11 "t" "{t}:name" created = (s', Ok ()) /\
    table s' 2%nat "room_data_v2_8" !! "t"
    = Some {| HashTag := "t"; Value := ∅; DeletedAt := zeroTime;
              CreatedAt := 5; UpdatedAt := 11; Version := 1 |}.
Proof.
  destruct (delete_key DbFacts.two_shards "t" "{t}:name" "room_data_v2_8" 2%nat 11 created)
    as (s' & Hrun & Hrow & _).
  { vm_compute. reflexivity. }
  exists s'. split; [exact Hrun|]. rewrite Hrow. vm_compute. reflexivity.
Defined.

(** X6: upsert, then delete.  After an upsert of a key without interference
    and a delete of the same key, a load of the live document shows every
    other key as before the upsert and the key itself absent. *)
Theorem upsert_then_delete (db : DBCluster) (hashTag key : string) (value : RedisValue)
    (tableName : string) (client : pgDB) (now now' : Time) (s : pg roomDataModelV2) :
  IsZero value = false ->
  GetTableNameAndDBClientByModel db (newRoomDataModelV2 hashTag) = Ok (tableName, client) ->
  exists s1 s2 row,
    _upsertRoomData id db now hashTag key value s = (s1, Ok ()) /\
    deleteRoomData db now' hashTag key s1 = (s2, Ok ()) /\
    table s2 client tableName !! hashTag = Some row /\
    Value row !! key = None /\
    (forall k, k <> key ->
       Value row !! k
       = match table s client tableName !! hashTag with
         | Some old => Value old !! k
         | None => None
         end).
Proof.
  intros Hnz Hres.
  destruct (upsert_alone db hashTag tableName client Hres key value now s Hnz)
    as (s1 & Hrun1 & Hrow1).
  destruct (delete_key db hashTag key tableName client now' s1 Hres)
    as (s2 & Hrun2 & Hrow2 & _).
  rewrite Hrow1 in Hrow2. simpl in Hrow2.
  eexists s1, s2, _. split; [exact Hrun1|]. split; [exact Hrun2|].
  split; [exact Hrow2|].
  destruct (table s client tableName !! hashTag) as [old|]; simpl.
  - split; [apply lookup_delete_eq|].
    intros k Hk. rewrite lookup_delete_ne by done. by rewrite lookup_insert_ne.
  - split; [apply lookup_delete_eq|].
    intros k Hk. rewrite lookup_delete_ne by done. by rewrite lookup_singleton_ne.
Qed.

Lemma upsert_then_delete_witness :
  exists s1 s2 row,
    _upsertRoomData id DbFacts.two_shards 9 "t" "{t}:age" name_value created = (s1, Ok ()) /\
    deleteRoomData DbFacts.two_shards 11 "t" "{t}:age" s1 = (s2, Ok ()) /\
    table s2 2%nat "room_data_v2_8" !! "t" = Some row /\
    Value row !! "{t}:age" = None /\
    Value row !! "{t}:name" = Some name_value.
Proof.
  destruct (upsert_then_delete DbFacts.two_shards "t" "{t}:age" name_value
              "room_data_v2_8" 2%nat 9 11 created eq_refl)
    as (s1 & s2 & row & H1 & H2 & H3 & H4 & H5).
  { vm_compute. reflexivity. }
  exists s1, s2, row. repeat (split; [done|]).
  rewrite (H5 "{t}:name") by done. vm_compute. reflexivity.
Defined.

(** *** Two connections *)

Lemma table_of_tables {R} (s s' : pg R) (c : pgDB) (n : string) :
  tables s = tables s' -> table s c n = table s' c n.
Proof. unfold table. by intros ->. Qed.

(** The first attempt meets the whole upsert of another connection, the
    later attempts meet nothing. *)
Definition meets_once (call : pg roomDataModelV2 -> pg roomDataModelV2 * outcome unit)
    (i : nat) : store -> store :=
  match i with
  | O => commits call
  | S _ => id
  end.

(** X7: no lost update.  Connection A upserts one key while connection B
    upserts another key of the same document between A's SELECT and UPDATE.
    A's guarded update misses, A tries again and succeeds: the document
    holds both keys and its version has gone up by two. *)
Theorem concurrent_upserts_keep_both (db : DBCluster) (hashTag keyA keyB : string)
    (valueA valueB : RedisValue) (tableName : string) (client : pgDB)
    (nowB : Time) (now : nat -> Time) (tryTimes : Z)
    (s : pg roomDataModelV2) (old : roomDataModelV2) :
  IsZero valueA = false -> IsZero valueB = false ->
  GetTableNameAndDBClientByModel db (newRoomDataModelV2 hashTag) = Ok (tableName, client) ->
  table s client tableName !! hashTag = Some old ->
  2 <= tryTimes ->
  exists s',
    upsertRoomData (meets_once (_upsertRoomData id db nowB hashTag keyB valueB))
      db now hashTag keyA valueA tryTimes s = (s', Ok ()) /\
    table s' client tableName !! hashTag
    = Some {| HashTag := HashTag old;
              Value := <[ keyA := valueA ]> (<[ keyB := valueB ]> (Value old));
              DeletedAt := DeletedAt old; CreatedAt := CreatedAt old;
              UpdatedAt := now 1%nat;
              Version := int64 (int64 (Version old + 1) + 1) |}.
Proof.
  intros HnzA HnzB Hres Hold Htry.
  set (callB := _upsertRoomData id db nowB hashTag keyB valueB).
  (* what B commits *)
  destruct (upsert_alone db hashTag tableName client Hres keyB valueB nowB
              {| tables := tables s; log := [] |} HnzB) as (sB & HrunB & HrowB).
  rewrite (table_of_tables {| tables := tables s; log := [] |} s) in HrowB by done.
  rewrite Hold in HrowB.
  assert (Hafter : table (interfere (meets_once callB 0) s) client tableName !! hashTag
                   = table sB client tableName !! hashTag).
  { f_equal. apply table_of_tables. simpl. unfold commits. subst callB.
    by rewrite HrunB. }
  (* A's first attempt misses *)
  destruct (upsert_conflict db hashTag keyA valueA tableName client HnzA Hres
              (meets_once callB 0) (now 0%nat) s old Hold) as (s1 & Hrun1 & Htab1).
  { rewrite Hafter, HrowB. simpl. apply int64_succ_ne. }
  (* A's second attempt *)
  destruct (upsert_alone db hashTag tableName client Hres keyA valueA (now 1%nat) s1 HnzA)
    as (s' & Hrun2 & Hrow2).
  assert (Hrow1 : table s1 client tableName !! hashTag = table sB client tableName !! hashTag).
  { f_equal. apply table_of_tables. rewrite Htab1. simpl. unfold commits. subst callB.
    by rewrite HrunB. }
  rewrite Hrow1, HrowB in Hrow2. simpl in Hrow2.
  exists s'. split; [|exact Hrow2].
  unfold upsertRoomData.
  apply (loop_retries _ db now hashTag keyA valueA 1 0 (Z.to_nat tryTimes) _ s s1 s').
  - eapply conflicts_more; [exact Hrun1 | apply conflicts_none].
  - lia.
  - exact Hrun2.
Qed.

Lemma concurrent_upserts_keep_both_witness :
  exists s',
    upsertRoomData
      (meets_once (_upsertRoomData id DbFacts.two_shards 7 "t" "{t}:city" name_value))
      DbFacts.two_shards (λ _, 9) "t" "{t}:age" name_value 3 created = (s', Ok ()) /\
    table s' 2%nat "room_data_v2_8" !! "t"
    = Some {| HashTag := "t";
              Value := {[ "{t}:name" := name_value; "{t}:city" := name_value;
                          "{t}:age" := name_value ]};
              DeletedAt := zeroTime; CreatedAt := 5; UpdatedAt := 9; Version := 2 |}.
Proof.
  destruct (concurrent_upserts_keep_both DbFacts.two_shards "t" "{t}:age" "{t}:city"
              name_value name_value "room_data_v2_8" 2%nat 7 (λ _, 9) 3 created
              {| HashTag := "t"; Value := {[ "{t}:name" := name_value ]};
                 DeletedAt := zeroTime; CreatedAt := 5; UpdatedAt := 5; Version := 0 |}
              eq_refl eq_refl) as (s' & Hrun & Hrow).
  - vm_compute. reflexivity.
  - vm_compute. reflexivity.
  - lia.
  - exists s'. split; [exact Hrun|]. rewrite Hrow. vm_compute. reflexivity.
Defined.

(** The row is absent at the SELECT and there at the INSERT: the insert
    violates the key. *)
Lemma upsert_insert_race (db : DBCluster) (hashTag key : string) (value : RedisValue)
    (tableName : string) (client : pgDB) (env : store -> store) (now : Time)
    (s : pg roomDataModelV2) :
  IsZero value = false ->
  GetTableNameAndDBClientByModel db (newRoomDataModelV2 hashTag) = Ok (tableName, client) ->
  table s client tableName !! hashTag = None ->
  is_Some (table (interfere env s) client tableName !! hashTag) ->
  exists s',
    _upsertRoomData env db now hashTag key value s = (s', Err pgIntegrityViolation) /\
    tables s' = env (tables s).
Proof.
  intros Hnz Hres Habs [row Hrow]. unfold _upsertRoomData.
  rewrite Hnz, Hres. unfold Select. rewrite Habs.
  rewrite resolve_document. simpl HashTag. rewrite Hres.
  unfold Insert. rewrite table_interfere, Hrow.
  eexists. split; reflexivity.
Qed.

(** X8: a lost insert race.  The document does not exist; between A's SELECT
    and INSERT connection B creates it with another key.  A's insert is
    refused as a key violation, which is retried: A's second attempt sets
    its key in B's document, at version 1. *)
Theorem lost_insert_race_is_retried (db : DBCluster) (hashTag keyA keyB : string)
    (valueA valueB : RedisValue) (tableName : string) (client : pgDB)
    (nowB : Time) (now : nat -> Time) (tryTimes : Z) (s : pg roomDataModelV2) :
  IsZero valueA = false -> IsZero valueB = false ->
  GetTableNameAndDBClientByModel db (newRoomDataModelV2 hashTag) = Ok (tableName, client) ->
  table s client tableName !! hashTag = None ->
  2 <= tryTimes ->
  exists s',
    upsertRoomData (meets_once (_upsertRoomData id db nowB hashTag keyB valueB))
      db now hashTag keyA valueA tryTimes s = (s', Ok ()) /\
    table s' client tableName !! hashTag
    = Some {| HashTag := hashTag;
              Value := <[ keyA := valueA ]> {[ keyB := valueB ]};
              DeletedAt := zeroTime; CreatedAt := nowB; UpdatedAt := now 1%nat;
              Version := int64 (0 + 1) |}.
Proof.
  intros HnzA HnzB Hres Habs Htry.
  set (callB := _upsertRoomData id db nowB hashTag keyB valueB).
  destruct (upsert_alone db hashTag tableName client Hres keyB valueB nowB
              {| tables := tables s; log := [] |} HnzB) as (sB & HrunB & HrowB).
  rewrite (table_of_tables {| tables := tables s; log := [] |} s) in HrowB by done.
  rewrite Habs in HrowB.
  assert (Hafter : table (interfere (meets_once callB 0) s) client tableName !! hashTag
                   = table sB client tableName !! hashTag).
  { f_equal. apply table_of_tables. simpl. unfold commits. subst callB.
    by rewrite HrunB. }
  destruct (upsert_insert_race db hashTag keyA valueA tableName client
              (meets_once callB 0) (now 0%nat) s HnzA Hres Habs) as (s1 & Hrun1 & Htab1).
  { rewrite Hafter, HrowB. eauto. }
  destruct (upsert_alone db hashTag tableName client Hres keyA valueA (now 1%nat) s1 HnzA)
    as (s' & Hrun2 & Hrow2).
  assert (Hrow1 : table s1 client tableName !! hashTag = table sB client tableName !! hashTag).
  { f_equal. apply table_of_tables. rewrite Htab1. simpl. unfold commits. subst callB.
    by rewrite HrunB. }
  rewrite Hrow1, HrowB in Hrow2. simpl in Hrow2.
  exists s'. split; [|exact Hrow2].
  unfold upsertRoomData.
  destruct (Z.to_nat tryTimes) as [|[|r]] eqn:E; [lia | lia |].
  subst callB. remember (S r) as r1 eqn:Hr1.
  cbn [upsertRoomData_loop]. rewrite Hrun1. cbn [isRetryErrorForUpdateInTx].
  subst r1. cbn [upsertRoomData_loop meets_once]. rewrite Hrun2. reflexivity.
Qed.

Lemma lost_insert_race_is_retried_witness :
  exists s',
    upsertRoomData
      (meets_once (_upsertRoomData id DbFacts.two_shards 7 "t" "{t}:city" name_value))
      DbFacts.two_shards (λ _, 9) "t" "{t}:age" name_value 2 empty_pg = (s', Ok ()) /\
    table s' 2%nat "room_data_v2_8" !! "t"
    = Some {| HashTag := "t";
              Value := {[ "{t}:city" := name_value; "{t}:age" := name_value ]};
              DeletedAt := zeroTime; CreatedAt := 7; UpdatedAt := 9; Version := 1 |}.
Proof.
  destruct (lost_insert_race_is_retried DbFacts.two_shards "t" "{t}:age" "{t}:city"
              name_value name_value "room_data_v2_8" 2%nat 7 (λ _, 9) 2 empty_pg
              eq_refl eq_refl) as (s' & Hrun & Hrow).
  - vm_compute. reflexivity.
  - vm_compute. reflexivity.
  - lia.
  - exists s'. split; [exact Hrun|]. rewrite Hrow. vm_compute. reflexivity.
Defined.

End DocumentFacts.

(** ** Documents: the retry loop, unresolved shards, whole-map upserts *)
Module RetryFacts.
Import Go Db Storage Documents UpsertFacts.

(** One attempt appends at most two statements to the log. *)
Lemma attempt_log (env : store -> store) (db : DBCluster) (now : Time)
    (hashTag key : string) (value : RedisValue) (s : pg roomDataModelV2) :
  exists l,
    log (_upsertRoomData env db now hashTag key value s).1 = log s ++ l /\
    (length l <= 2)%nat.
Proof.
  unfold _upsertRoomData.
  destruct (IsZero value); [exists []; rewrite app_nil_r; simpl; split; [done | lia]|].
  destruct (GetTableNameAndDBClientByModel db (newRoomDataModelV2 hashTag))
    as [[tn cl]|e|m]; [|exists []; rewrite app_nil_r; simpl; split; [done | lia]..].
  unfold Select.
  destruct (table s cl tn !! hashTag) as [row|].
  - unfold Update. rewrite table_interfere.
    destruct (table (interfere env s) cl tn !! hashTag) as [row'|].
    + destruct (Version row' =? Version row); simpl;
        (eexists [_; _]; split; [by rewrite <- app_assoc | simpl; lia]).
    + simpl. eexists [_; _]. split; [by rewrite <- app_assoc | simpl; lia].
  - destruct (GetTableNameAndDBClientByModel db _) as [[tn' cl']|e|m];
      [|eexists [_]; simpl; split; [done | lia]..].
    unfold Insert. rewrite table_interfere.
    destruct (table (interfere env s) cl' tn' !! hashTag); simpl;
      (eexists [_; _]; split; [by rewrite <- app_assoc | simpl; lia]).
Qed.

Lemma loop_log (envs : nat -> store -> store) (db : DBCluster) (now : nat -> Time)
    (hashTag key : string) (value : RedisValue) (remaining : nat) :
  forall (i : nat) (err : outcome unit) (s : pg roomDataModelV2),
    exists l,
      log (upsertRoomData_loop envs db now hashTag key value i remaining err s).1
        = log s ++ l /\
      (length l <= 2 * remaining)%nat.
Proof.
  induction remaining as [|r IH]; intros i err s.
  - exists []. rewrite app_nil_r. simpl. split; [done | lia].
  - cbn [upsertRoomData_loop].
    destruct (attempt_log (envs i) db (now i) hashTag key value s) as (l1 & Hl1 & Hlen1).
    destruct (_upsertRoomData (envs i) db (now i) hashTag key value s) as [s1 [[]|e|m]];
      simpl in Hl1.
    + exists l1. simpl. split; [done | lia].
    + destruct (isRetryErrorForUpdateInTx e).
      * destruct (IH (S i) (Err e) s1) as (l2 & Hl2 & Hlen2).
        exists (l1 ++ l2). rewrite Hl2, Hl1, <- app_assoc. split; [done|].
        rewrite length_app. lia.
      * exists l1. simpl. split; [done | lia].
    + exists l1. simpl. split; [done | lia].
Qed.

(** X9: bounded work.  [upsertRoomData] only appends to the statement log,
    at most two statements (a SELECT and an INSERT or UPDATE) per try and
    at most [tryTimes] tries, whatever other connections do; with a try
    count of zero or less it does nothing at all and reports success. *)
Theorem upsert_statements_bounded (envs : nat -> store -> store) (db : DBCluster)
    (now : nat -> Time) (hashTag key : string) (value : RedisValue) (tryTimes : Z)
    (s : pg roomDataModelV2) :
  (exists l,
     log (upsertRoomData envs db now hashTag key value tryTimes s).1 = log s ++ l /\
     (length l <= 2 * Z.to_nat tryTimes)%nat) /\
  (tryTimes <= 0 ->
     upsertRoomData envs db now hashTag key value tryTimes s = (s, Ok ())).
Proof.
  split; [apply loop_log|].
  intros Hle. unfold upsertRoomData. replace (Z.to_nat tryTimes) with 0%nat by lia.
  reflexivity.
Qed.



(** X11: replacing the whole map.  An upsert of a whole value map that meets
    no interference succeeds, for an empty map too; a load then shows
    exactly that map (the keys the document held before are gone), at
    version 0 for a new document and at the old version plus one
    otherwise; a soft-deleted row is updated all the same and stays
    invisible. *)
Theorem value_upsert_then_load (db : DBCluster) (hashTag : string)
    (value : gmap string RedisValue) (tableName : string) (client : pgDB)
    (now : Time) (s : pg roomDataModelV2) :
  GetTableNameAndDBClientByModel db (newRoomDataModelV2 hashTag) = Ok (tableName, client) ->
  exists s',
    _upsertRoomDataValue id db now hashTag value s = (s', Ok ()) /\
    (loadDataByID db hashTag s').2
    = match table s client tableName !! hashTag with
      | Some old =>
          if Time_IsZero (DeletedAt old)
          then Ok (Some {| HashTag := HashTag old; Value := value;
                           DeletedAt := DeletedAt old; CreatedAt := CreatedAt old;
                           UpdatedAt := now; Version := int64 (Version old + 1) |})
          else Ok None
      | None =>
          Ok (Some {| HashTag := hashTag; Value := value;
                      DeletedAt := zeroTime; CreatedAt := now; UpdatedAt := now;
                      Version := 0 |})
      end.
Proof.
  intros Hres. unfold _upsertRoomDataValue, loadDataByID, SelectWhere.
  rewrite Hres. unfold Select.
  destruct (table s client tableName !! hashTag) as [old|] eqn:Hold.
  - unfold Update. rewrite table_interfere.
    replace (interfere id s) with s by (by destruct s).
    rewrite Hold, Z.eqb_refl. simpl.
    eexists. split; [reflexivity|]. rewrite table_set_table, lookup_insert_eq. simpl.
    destruct (Time_IsZero (DeletedAt old)); reflexivity.
  - unfold Insert. rewrite table_interfere.
    replace (interfere id s) with s by (by destruct s).
    rewrite Hold. eexists. split; [reflexivity|].
    rewrite table_set_table, lookup_insert_eq. reflexivity.
Qed.

Lemma value_upsert_then_load_witness :
  exists s',
    _upsertRoomDataValue id DbFacts.two_shards 9 "t" {[ "{t}:age" := name_value ]} created
      = (s', Ok ()) /\
    (loadDataByID DbFacts.two_shards "t" s').2
    = Ok (Some {| HashTag := "t"; Value := {[ "{t}:age" := name_value ]};
                  DeletedAt := zeroTime; CreatedAt := 5; UpdatedAt := 9; Version := 1 |}).
Proof.
  destruct (value_upsert_then_load DbFacts.two_shards "t" {[ "{t}:age" := name_value ]}
              "room_data_v2_8" 2%nat 9 created) as (s' & Hrun & Hload).
  { vm_compute. reflexivity. }
  exists s'. split; [exact Hrun|]. rewrite Hload. vm_compute. reflexivity.
Defined.

End RetryFacts.

(** ** Properties of the single-record operations *)
Module RecordFacts.
Import Go Db Storage Records BulkFacts.

Lemma table_tables {R} (s : pg R) (client : pgDB) (name : string) (t : gmap string R)
    (l : list stmt) :
  table {| tables := <[ (client, name) := t ]> (tables s); log := l |} client name = t.
Proof. unfold table. simpl. by rewrite lookup_insert_eq. Qed.

Lemma table_tables_ne {R} (s : pg R) (client client' : pgDB) (name name' : string)
    (t : gmap string R) (l : list stmt) :
  (client', name') <> (client, name) ->
  table {| tables := <[ (client, name) := t ]> (tables s); log := l |} client' name'
  = table s client' name'.
Proof. intros Hne. unfold table. simpl. by rewrite lookup_insert_ne. Qed.

Lemma resolve_by_key `{TsRecordOk R} (db : DBCluster) (m m' : R) :
  ShardingKey m' = ShardingKey m ->
  GetTableNameAndDBClientByModel db m' = GetTableNameAndDBClientByModel db m.
Proof.
  intros Hkey. unfold GetTableNameAndDBClientByModel.
  by rewrite Hkey, (one_prefix m' m).
Qed.

Section Load.
Context {R : Type} `{TsRecordOk R}.
Variable mk : string -> R.
Hypothesis mk_key : forall m : R, ShardingKey (mk (pk m)) = ShardingKey m.

(** What a load by primary key returns is the row of the table the key
    resolves to. *)
Lemma loadByID_row (db : DBCluster) (m : R) (n : string) (c : pgDB) (s : pg R) :
  GetTableNameAndDBClientByModel db m = Ok (n, c) ->
  (loadByID (mk (pk m)) (pk m) db s).2 = Ok (table s c n !! pk m).
Proof.
  intros Hres. unfold loadByID.
  rewrite (resolve_by_key db m (mk (pk m)) (mk_key m)), Hres.
  unfold Select. by destruct (table s c n !! pk m).
Qed.

Lemma bulkUpsert_then_loadByID
    (order : list (clusterModel R) -> list (clusterModel R))
    (db : DBCluster) (ms : list R) (s : pg R) :
  (forall l, order l ≡ₚ l) ->
  NoDup (pk <$> ms) ->
  (forall m, m ∈ ms -> exists n c, GetTableNameAndDBClientByModel db m = Ok (n, c)) ->
  exists s',
    bulkUpsert order db ms s = (s', Ok ()) /\
    forall m, m ∈ ms ->
      exists stored,
        (loadByID (mk (pk m)) (pk m) db s').2 = Ok (Some stored) /\
        ((loadByID (mk (pk m)) (pk m) db s).2 = Ok None -> stored = m) /\
        (forall old, (loadByID (mk (pk m)) (pk m) db s).2 = Ok (Some old) ->
           ts stored = Z.max (ts old) (ts m)).
Proof.
  intros Horder Hnd Hres.
  destruct (bulkUpsert_max_wins order order db ms s Horder Horder Hnd Hres)
    as (s' & Hrun & Hrows & _).
  exists s'. split; [exact Hrun|]. intros m Hm.
  destruct (Hres m Hm) as (n & c & Hr).
  destruct (Hrows m n c Hm Hr) as (stored & Hst & Hspec).
  exists stored. rewrite !(loadByID_row db m n c) by exact Hr.
  split; [by rewrite Hst|].
  destruct (table s c n !! pk m) as [existing|].
  - split; [done|]. intros old [= <-]. by destruct Hspec.
  - split; [done | done].
Qed.

End Load.

(** X12: bulk upsert, then load.  After a bulk upsert of a batch with one
    record per key whose shards all resolve, a load by key returns a record
    for every key of the batch: the record of the batch itself when a load
    before the upsert returned nil, and else a record that carries the later
    of the time loaded before and the time of the batch.  This holds for the
    written records and for the accessed records. *)
Theorem bulk_upsert_then_load :
  (forall order db (ms : list roomWrittenRecordModel) s,
     (forall l, order l ≡ₚ l) ->
     NoDup (Key <$> ms) ->
     (forall m, m ∈ ms -> exists n c, GetTableNameAndDBClientByModel db m = Ok (n, c)) ->
     exists s',
       bulkUpsertWrittenRecordModels order db ms s = (s', Ok ()) /\
       forall m, m ∈ ms ->
         exists stored,
           (loadWrittenRecordModelByID db (Key m) s').2 = Ok (Some stored) /\
           ((loadWrittenRecordModelByID db (Key m) s).2 = Ok None -> stored = m) /\
           (forall old, (loadWrittenRecordModelByID db (Key m) s).2 = Ok (Some old) ->
              WrittenAt stored = Z.max (WrittenAt old) (WrittenAt m))) /\
  (forall order db (ms : list roomAccessedRecordModelV2) s,
     (forall l, order l ≡ₚ l) ->
     NoDup (A_HashTag <$> ms) ->
     (forall m, m ∈ ms -> exists n c, GetTableNameAndDBClientByModel db m = Ok (n, c)) ->
     exists s',
       bulkUpsertAccessedRecordModelsV2 order db ms s = (s', Ok ()) /\
       forall m, m ∈ ms ->
         exists stored,
           (loadAccessedRecordModelByID db (A_HashTag m) s').2 = Ok (Some stored) /\
           ((loadAccessedRecordModelByID db (A_HashTag m) s).2 = Ok None -> stored = m) /\
           (forall old, (loadAccessedRecordModelByID db (A_HashTag m) s).2 = Ok (Some old) ->
              AccessedAt stored = Z.max (AccessedAt old) (AccessedAt m))).
Proof.
  split; intros order db ms s Horder Hnd Hres.
  - exact (bulkUpsert_then_loadByID
             (λ id, {| Key := id; WrittenAt := zeroTime; W_CreatedAt := zeroTime |})
             (λ _, eq_refl) order db ms s Horder Hnd Hres).
  - exact (bulkUpsert_then_loadByID
             (λ id, {| A_HashTag := id; AccessedAt := zeroTime; A_CreatedAt := zeroTime |})
             (λ _, eq_refl) order db ms s Horder Hnd Hres).
Qed.

(** The guarded delete: the record goes exactly when its stored [written_at]
    is the one given; no other key and no other table changes. *)
Lemma delete_written_record (db : DBCluster) (key : string)
    (writtenAt : Time) (tableName : string) (client : pgDB)
    (s : pg roomWrittenRecordModel) :
  GetTableNameAndDBClientByModel db
    {| Key := key; WrittenAt := zeroTime; W_CreatedAt := zeroTime |}
    = Ok (tableName, client) ->
  exists s',
    deleteRoomWrittenRecordModel db key writtenAt s = (s', Ok ()) /\
    table s' client tableName !! key
    = match table s client tableName !! key with
      | Some row => if WrittenAt row =? writtenAt then None else Some row
      | None => None
      end /\
    (forall key', key' <> key ->
       table s' client tableName !! key' = table s client tableName !! key') /\
    (forall client' tableName', (client', tableName') <> (client, tableName) ->
       table s' client' tableName' = table s client' tableName').
Proof.
  intros Hres. unfold deleteRoomWrittenRecordModel. rewrite Hres.
  destruct (table s client tableName !! key) as [row|] eqn:Hrow.
  - destruct (WrittenAt row =? writtenAt) eqn:E.
    + eexists. split; [reflexivity|]. split; [|split].
      * rewrite table_tables. by rewrite lookup_delete_eq.
      * intros key' Hne. rewrite table_tables. by rewrite lookup_delete_ne.
      * intros client' tableName' Hne. by rewrite table_tables_ne.
    + exists s. rewrite Hrow. done.
  - exists s. rewrite Hrow. done.
Qed.

(** X13: a record written again survives the delete.  A reader loads the
    written record of a key and keeps its time; the key is then written
    again (a bulk upsert of that key); the reader then deletes the record
    with the time it kept.  When the second write is strictly newer the
    record is still there afterwards, with the newer time; when it is not,
    the record is gone.  Both calls return nil. *)
Theorem rewritten_record_survives_delete
    (order : list (clusterModel roomWrittenRecordModel) ->
             list (clusterModel roomWrittenRecordModel))
    (db : DBCluster) (again old : roomWrittenRecordModel)
    (s : pg roomWrittenRecordModel) :
  (forall l, order l ≡ₚ l) ->
  (exists n c, GetTableNameAndDBClientByModel db again = Ok (n, c)) ->
  (loadWrittenRecordModelByID db (Key again) s).2 = Ok (Some old) ->
  exists s1 s2,
    bulkUpsertWrittenRecordModels order db [again] s = (s1, Ok ()) /\
    deleteRoomWrittenRecordModel db (Key again) (WrittenAt old) s1 = (s2, Ok ()) /\
    (loadWrittenRecordModelByID db (Key again) s2).2
    = Ok (if WrittenAt old <? WrittenAt again
          then Some {| Key := Key old; WrittenAt := WrittenAt again;
                       W_CreatedAt := W_CreatedAt old |}
          else None).
Proof.
  intros Horder (n & c & Hres) Hload.
  set (mk := λ id, {| Key := id; WrittenAt := zeroTime; W_CreatedAt := zeroTime |}).
  assert (Hmk : forall m : roomWrittenRecordModel, ShardingKey (mk (pk m)) = ShardingKey m)
    by done.
  assert (Hkey : GetTableNameAndDBClientByModel db (mk (Key again)) = Ok (n, c)).
  { rewrite <- Hres. by apply resolve_by_key. }
  change (loadWrittenRecordModelByID db (Key again) s)
    with (loadByID (mk (pk again)) (pk again) db s) in Hload.
  rewrite (loadByID_row mk Hmk db again n c s Hres) in Hload.
  injection Hload as Hold. change (pk again) with (Key again) in Hold.
  destruct (bulkUpsert_max_wins order order db [again] s Horder Horder) as (s1 & Hrun & Hrows & _).
  { rewrite fmap_cons, fmap_nil. apply NoDup_singleton. }
  { intros m Hm. apply list_elem_of_singleton in Hm as ->. eauto. }
  destruct (Hrows again n c) as (stored & Hst & Hspec); [left | exact Hres |].
  change (pk again) with (Key again) in Hst, Hspec. rewrite Hold in Hspec.
  destruct Hspec as (_ & Hnewer & Hstale).
  change (ts old) with (WrittenAt old) in Hnewer, Hstale.
  change (ts again) with (WrittenAt again) in Hnewer, Hstale.
  destruct (delete_written_record db (Key again) (WrittenAt old) n c s1 Hkey)
    as (s2 & Hdel & Hat & _).
  exists s1, s2. split; [exact Hrun|]. split; [exact Hdel|].
  change (loadWrittenRecordModelByID db (Key again) s2)
    with (loadByID (mk (pk again)) (pk again) db s2).
  rewrite (loadByID_row mk Hmk db again n c s2 Hres).
  change (pk again) with (Key again). rewrite Hat, Hst. f_equal.
  destruct (WrittenAt old <? WrittenAt again) eqn:E.
  - apply Z.ltb_lt in E. rewrite (Hnewer E). simpl.
    destruct (WrittenAt again =? WrittenAt old) eqn:E'; [apply Z.eqb_eq in E'; lia|].
    reflexivity.
  - apply Z.ltb_ge in E. rewrite (Hstale E). by rewrite Z.eqb_refl.
Qed.

Lemma bulk_upsert_then_load_witness :
  exists s',
    bulkUpsertWrittenRecordModels id DbFacts.two_shards written_batch written_before
      = (s', Ok ()) /\
    exists stored,
      (loadWrittenRecordModelByID DbFacts.two_shards "{t}:k2" s').2 = Ok (Some stored) /\
      WrittenAt stored = 200.
Proof.
  destruct bulk_upsert_then_load as [Hwritten _].
  destruct (Hwritten id DbFacts.two_shards written_batch written_before)
    as (s' & Hrun & Hload).
  - done.
  - apply (bool_decide_unpack _). vm_compute. exact I.
  - intros m Hm. unfold written_batch in Hm.
    repeat (apply elem_of_cons in Hm as [->|Hm]; [eexists _, _; vm_compute; reflexivity|]).
    inversion Hm.
  - exists s'. split; [exact Hrun|].
    destruct (Hload (written_at "{t}:k2" 200)) as (stored & Hst & _ & Hold); [left|].
    exists stored. split; [exact Hst|].
    rewrite (Hold (written_at "{t}:k2" 100)); [reflexivity | vm_compute; reflexivity].
Defined.

(** Written record of ["{t}:k2"], as loaded at time 100, and as written
    again at time 200. *)
Lemma rewritten_record_survives_delete_witness :
  exists s1 s2,
    bulkUpsertWrittenRecordModels id DbFacts.two_shards [written_at "{t}:k2" 200]
      written_before = (s1, Ok ()) /\
    deleteRoomWrittenRecordModel DbFacts.two_shards (Key (written_at "{t}:k2" 200))
      (WrittenAt (written_at "{t}:k2" 100)) s1 = (s2, Ok ()) /\
    (loadWrittenRecordModelByID DbFacts.two_shards (Key (written_at "{t}:k2" 200)) s2).2
    = Ok (if WrittenAt (written_at "{t}:k2" 100) <? WrittenAt (written_at "{t}:k2" 200)
          then Some {| Key := Key (written_at "{t}:k2" 100);
                       WrittenAt := WrittenAt (written_at "{t}:k2" 200);
                       W_CreatedAt := W_CreatedAt (written_at "{t}:k2" 100) |}
          else None).
Proof.
  refine (rewritten_record_survives_delete id DbFacts.two_shards
            (written_at "{t}:k2" 200) (written_at "{t}:k2" 100) written_before _ _ _).
  - done.
  - eexists _, _. vm_compute. reflexivity.
  - vm_compute. reflexivity.
Defined.

Section Status.
Variable db : DBCluster.
Variables (model : roomHashTagKeys) (tableName : string) (client : pgDB).
Hypothesis resolved : GetTableNameAndDBClientByModel db model = Ok (tableName, client).

Lemma setStatus_run (set : roomHashTagKeys -> roomHashTagKeys)
    (other : roomHashTagKeys) (s0 : pg roomHashTagKeys) :
  K_HashTag other = K_HashTag model ->
  setStatus set other db s0
  = match table s0 client tableName !! K_HashTag model with
    | Some stored =>
        if K_Version stored =? K_Version other
        then (set_table s0 client tableName
                (<[ K_HashTag model := set stored ]> (table s0 client tableName))
                (UPDATE client tableName (K_HashTag model)), Ok ())
        else (logged s0 (UPDATE client tableName (K_HashTag model)), Err errNoRowsUpdated)
    | None => (logged s0 (UPDATE client tableName (K_HashTag model)), Err errNoRowsUpdated)
    end.
Proof.
  intros Htag. unfold setStatus.
  assert (Hres : GetTableNameAndDBClientByModel db other = Ok (tableName, client)).
  { rewrite <- resolved. unfold GetTableNameAndDBClientByModel. simpl. by rewrite Htag. }
  rewrite Hres. unfold Update. rewrite Htag.
  destruct (table s0 client tableName !! K_HashTag model) as [stored|]; [|reflexivity].
  destruct (K_Version stored =? K_Version other); reflexivity.
Qed.

End Status.

(** X14: the version guard of the status updates.  [SetStatusAsSynced]
    succeeds exactly when the stored row of the hash tag carries the version
    of the model; the row then has status synced, the given time as
    [synced_at] and [updated_at], and the next version.  After that, every
    status update by a model that still carries the old version (the model
    of the call itself included, which the call does not change) fails with
    the no-rows-updated error and leaves the tables as they are. *)
Theorem status_update_wins_once (db : DBCluster) (model row : roomHashTagKeys)
    (tableName : string) (client : pgDB) (t : Time) (s : pg roomHashTagKeys) :
  GetTableNameAndDBClientByModel db model = Ok (tableName, client) ->
  table s client tableName !! K_HashTag model = Some row ->
  ((SetStatusAsSynced model db t s).2 = Ok () <-> K_Version row = K_Version model) /\
  (K_Version row = K_Version model ->
   exists s1,
     SetStatusAsSynced model db t s = (s1, Ok ()) /\
     table s1 client tableName !! K_HashTag model
     = Some {| K_HashTag := K_HashTag row; K_Keys := K_Keys row;
               K_AccessedAt := K_AccessedAt row; K_WrittenAt := K_WrittenAt row;
               K_SyncedAt := t; K_CreatedAt := K_CreatedAt row; K_UpdatedAt := t;
               K_Status := HashTagKeysStatusSynced;
               K_Version := int64 (K_Version model + 1) |} /\
     forall (other : roomHashTagKeys) (t' : Time),
       K_HashTag other = K_HashTag model ->
       K_Version other = K_Version model ->
       (SetStatusAsSynced other db t' s1).2 = Err errNoRowsUpdated /\
       tables (SetStatusAsSynced other db t' s1).1 = tables s1 /\
       (SetStatusAsCleaned other db t' s1).2 = Err errNoRowsUpdated /\
       tables (SetStatusAsCleaned other db t' s1).1 = tables s1).
Proof.
  intros Hres Hrow. split.
  - unfold SetStatusAsSynced. rewrite (setStatus_run db model tableName client Hres) by done.
    rewrite Hrow. destruct (K_Version row =? K_Version model) eqn:E.
    + apply Z.eqb_eq in E. done.
    + apply Z.eqb_neq in E. simpl. split; [done | contradiction].
  - intros Hv. unfold SetStatusAsSynced at 1.
    rewrite (setStatus_run db model tableName client Hres) by done.
    rewrite Hrow, Hv, Z.eqb_refl. eexists. split; [reflexivity|].
    split; [by rewrite UpsertFacts.table_set_table, lookup_insert_eq|].
    intros other t' Htag Hver. unfold SetStatusAsSynced, SetStatusAsCleaned.
    rewrite !(setStatus_run db model tableName client Hres) by done.
    rewrite UpsertFacts.table_set_table, lookup_insert_eq. cbn [K_Version].
    rewrite Hver.
    destruct (int64 (K_Version model + 1) =? K_Version model) eqn:E.
    + apply Z.eqb_eq in E. by apply DocumentFacts.int64_succ_ne in E.
    + done.
Qed.

Definition keys_of_t : roomHashTagKeys :=
  {| K_HashTag := "t"; K_Keys := ["{t}:k2"; "{t}:name"]; K_AccessedAt := 90;
     K_WrittenAt := 80; K_SyncedAt := zeroTime; K_CreatedAt := 5; K_UpdatedAt := 80;
     K_Status := HashTagKeysStatusNeedSynced; K_Version := 3 |}.

Definition indexed : pg roomHashTagKeys :=
  {| tables := {[ (2%nat, "room_hash_tag_keys_8") := {[ "t" := keys_of_t ]} ]};
     log := [] |}.

Lemma status_update_wins_once_witness :
  (SetStatusAsSynced keys_of_t DbFacts.two_shards 100 indexed).2 = Ok () /\
  exists s1,
    SetStatusAsSynced keys_of_t DbFacts.two_shards 100 indexed = (s1, Ok ()) /\
    (SetStatusAsCleaned keys_of_t DbFacts.two_shards 120 s1).2 = Err errNoRowsUpdated.
Proof.
  destruct (status_update_wins_once DbFacts.two_shards keys_of_t keys_of_t
              "room_hash_tag_keys_8" 2%nat 100 indexed) as [Hiff Hwin].
  - vm_compute. reflexivity.
  - vm_compute. reflexivity.
  - split; [by apply Hiff|].
    destruct (Hwin eq_refl) as (s1 & Hrun & _ & Hlater).
    exists s1. split; [exact Hrun|].
    by destruct (Hlater keys_of_t 120 eq_refl eq_refl) as (_ & _ & Hc & _).
Defined.

End RecordFacts.
